(** * xsatmgr: colour transform matrix encoding and delivery

    A shallow embedding of [main.c]: the generation of the saturation matrix
    ([parse_user_ctm]), its translation to the signed-magnitude S31.32 format
    of DRM ([coeffs_to_ctm]), the padding of the blob to an array of [long]
    ([set_ctm]), the search of a RandR output by name
    ([find_output_by_name]), the delivery of the blob as an output
    property ([set_output_blob]), the short help ([print_short_help]) and
    the program itself ([main]).

    - A C [double] is an IEEE 754 binary64 number, [spec_float] with
      precision 53 and maximal exponent 1024; the arithmetic is the one of
      the Standard Library's [SpecFloat], every operation rounded to
      binary64.
    - An [int64_t] is a [Z] in the signed range; conversions between the
      signed and unsigned 64-bit types are written out.
    - An object that is read through a pointer of another type has its
      bytes laid out in the byte order of the platform; the read has a
      value only where C allows an access of that type (C11 6.5p7).
    - Xlib and RandR are outside the program: a call to them is an event
      of the computation, answered by a display service that the theorems
      quantify over.
    - What [printf] writes is not modelled; where it is given an array to
      read as a string, that the array holds a string is. *)

From Stdlib Require Import ZArith List String Lia QArith Qabs Bool.
From Stdlib Require Import Floats.SpecFloat.
From stdpp Require Import base list option.
From coqutil Require Import Word.LittleEndianList.
From Stdlib Require Import Qround Ascii.

Local Open Scope Z_scope.

(** ** C doubles *)

Definition double : Type := spec_float.

Module Double.

Definition prec : Z := 53.
Definition emax : Z := 1024.

(** The representations that are binary64 numbers. *)
Definition valid (x : double) : bool := valid_binary prec emax x.

Definition is_finite (x : double) : bool :=
  match x with
  | S754_zero _ | S754_finite _ _ _ => true
  | S754_infinity _ | S754_nan => false
  end.

Definition is_zero (x : double) : bool :=
  match x with
  | S754_zero _ => true
  | _ => false
  end.

(** Conversion of an integer constant to double (exact below 2^53). *)
Definition of_Z (z : Z) : double := binary_normalize prec emax z 0 false.

Definition zero : double := S754_zero false.
Definition one : double := of_Z 1.
Definition three : double := of_Z 3.

Definition opp : double -> double := SFopp.
Definition abs : double -> double := SFabs.
Definition add : double -> double -> double := SFadd prec emax.
Definition sub : double -> double -> double := SFsub prec emax.
Definition mul : double -> double -> double := SFmul prec emax.
Definition div : double -> double -> double := SFdiv prec emax.
Definition ltb : double -> double -> bool := SFltb.
Definition eqb : double -> double -> bool := SFeqb.

(** The integral part of a finite double, fraction discarded. *)
Definition trunc (x : double) : Z :=
  match x with
  | S754_finite s m e =>
      let t := Z.shiftl (Z.pos m) e in
      if s then - t else t
  | _ => 0
  end.

(** [(int64_t) x]: truncation toward zero; the behaviour is undefined when
    the integral part is not an [int64_t], and for infinities and NaN. *)
Definition cast_int64 (x : double) : option Z :=
  if is_finite x then
    let v := trunc x in
    if (- 2 ^ 63 <=? v) && (v <? 2 ^ 63) then Some v else None
  else None.

(** The rational number a double stands for (0 for infinities and NaN). *)
Definition to_Q (x : double) : Q :=
  match x with
  | S754_finite s m e =>
      let n := if s then Z.neg m else Z.pos m in
      match e with
      | Z.neg p => n # (2 ^ p)
      | _ => inject_Z (n * 2 ^ e)
      end
  | _ => 0%Q
  end.

End Double.

(** ** 64-bit integers *)

(** Conversion to [uint64_t] and to [int64_t]. *)
Definition to_uint64 (z : Z) : Z := z mod 2 ^ 64.
Definition to_int64 (z : Z) : Z := (z + 2 ^ 63) mod 2 ^ 64 - 2 ^ 63.

Definition int64_range (z : Z) : Prop := - 2 ^ 63 <= z < 2 ^ 63.

(** ** The DRM colour transform matrix *)

(** [struct _drm_color_ctm]: the matrix in S31.32 signed-magnitude format. *)
Record _drm_color_ctm := { matrix : list Z }.

(** [(int64_t) 1L << 32], converted to double by the multiplication. *)
Definition two32 : double := Double.of_Z (Z.shiftl 1 32).

(** The body of the loop of [coeffs_to_ctm]: the value stored in
    [ctm->matrix[i]] for the coefficient [coeffs[i]]. *)
Definition coeff_to_ctm (c : double) : option Z :=
  if Double.ltb c Double.zero then
    v ← Double.cast_int64 (Double.mul (Double.opp c) two32);
    Some (to_int64 (Z.lor (to_uint64 v) (Z.shiftl 1 63)))
  else
    Double.cast_int64 (Double.mul c two32).

(** The loops of the program that fill an array: [n] iterations of
    [a[i] = f(i)] from index [i]; [f] has no value where the behaviour of the
    right-hand side is undefined. *)
Fixpoint for_store {A : Type} (n i : nat) (f : nat -> option A) (a : list A)
    : option (list A) :=
  match n with
  | O => Some a
  | S n' =>
      v ← f i;
      for_store n' (S i) f (<[i:=v]> a)
  end.

(** [for (i = 0; i < 9; i++)] on [coeffs[i]] and [ctm->matrix[i]]. *)
Definition coeffs_to_ctm (coeffs : list double) (ctm : _drm_color_ctm)
    : option _drm_color_ctm :=
  m ← for_store 9 0 (fun i => c ← coeffs !! i; coeff_to_ctm c) (matrix ctm);
  Some {| matrix := m |}.

(** The magnitude of a coefficient: [abs(c) * 2^32] converted to
    [int64_t]. *)
Definition magnitude (c : double) : option Z :=
  Double.cast_int64 (Double.mul (Double.abs c) two32).

Definition magnitude_fits (c : double) : bool :=
  match magnitude c with
  | Some _ => true
  | None => false
  end.

(** The coefficients in the range of the S31.32 format: the binary64
    numbers with [abs(c) * 2^32 < 2^63]. *)
Definition fits_Q31_32 (c : double) : Prop :=
  Double.valid c = true
  /\ Double.is_finite c = true
  /\ (Qabs (Double.to_Q c) * inject_Z (2 ^ 32) < inject_Z (2 ^ 63))%Q.

(** The reference decoding of a stored entry (it is not part of the
    program): the sign bit says whether to negate the magnitude held in the
    low 63 bits, and the result is divided by 2^32. *)
Definition sm_decode (w : Z) : Q :=
  let mag := Z.land w (Z.ones 63) in
  (if Z.testbit w 63 then - mag else mag) # (2 ^ 32).

(** ** Memory and the padded blob *)

Inductive byte_order := LittleEndian | BigEndian.

(** What the program depends on in the platform: the byte order and the
    width of [long]. *)
Record platform := { endianness : byte_order; long_bits : Z }.

(** The object representation of an unsigned integer of [n] bytes. *)
Definition store_uint (bo : byte_order) (n : nat) (v : Z) : list Byte.byte :=
  match bo with
  | LittleEndian => le_split n v
  | BigEndian => rev (le_split n v)
  end.

Definition load_uint (bo : byte_order) (bs : list Byte.byte) : Z :=
  match bo with
  | LittleEndian => le_combine bs
  | BigEndian => le_combine (rev bs)
  end.

(** The bytes of an array of [int64_t]. *)
Definition int64_array_bytes (bo : byte_order) (m : list Z)
    : list Byte.byte :=
  flat_map (fun w => store_uint bo 8 (to_uint64 w)) m.

(** The [uint32_t] whose object representation is the bytes [4i .. 4i+3]
    of [mem], which is what copying these bytes to a [uint32_t] gives;
    there is none past the bytes. *)
Definition uint32_at (bo : byte_order) (mem : list Byte.byte) (i : nat)
    : option Z :=
  let bs := take 4 (drop (4 * i) mem) in
  if (length bs =? 4)%nat then Some (load_uint bo bs) else None.

(** Conversion to [long]. *)
Definition to_long (pf : platform) (z : Z) : Z :=
  (z + 2 ^ (long_bits pf - 1)) mod 2 ^ long_bits pf - 2 ^ (long_bits pf - 1).

(** The types of the objects of the program and of its accesses. *)
Inductive ctype := char_t | int32_t | uint32_t | int64_t | uint64_t.

(** C11 6.5p7: the stored value of an object is accessed by an lvalue of
    the type of the object, of the signed or unsigned type that
    corresponds to it, or of a character type; the behaviour of any other
    access is undefined. *)
Definition may_access (lvalue object : ctype) : bool :=
  match lvalue, object with
  | char_t, _ => true
  | (int32_t | uint32_t), (int32_t | uint32_t) => true
  | (int64_t | uint64_t), (int64_t | uint64_t) => true
  | _, _ => false
  end.

(** [((uint32_t * ) p)[i]] where [p] points to an array with elements of
    type [object] and bytes [mem]: the read is undefined when the type of
    the elements does not allow it, and past the bytes. *)
Definition uint32_read (object : ctype) (bo : byte_order)
    (mem : list Byte.byte) (i : nat) : option Z :=
  if may_access uint32_t object then uint32_at bo mem i else None.

(** The loop [for (i = 0; i < 18; i++)] of [set_ctm]:
    [padded_ctm[i] = ((uint32_t * )ctm.matrix)[i]], where [ctm.matrix] is
    an array of [int64_t]. *)
Definition pack (pf : platform) (ctm : _drm_color_ctm) (padded_ctm : list Z)
    : option (list Z) :=
  let mem := int64_array_bytes (endianness pf) (matrix ctm) in
  for_store 18 0
    (fun i => w ← uint32_read int64_t (endianness pf) mem i;
              Some (to_long pf w))
    padded_ctm.

(** The copy that the comment of the loop asks to think of, "a padded
    memcpy()" (it is not the loop of the program): the bytes of the matrix
    are copied four at a time to a [uint32_t], as [memcpy] may for an
    object of any type, and each is converted to [long]. *)
Definition padded_memcpy (pf : platform) (ctm : _drm_color_ctm)
    (padded_ctm : list Z) : option (list Z) :=
  let mem := int64_array_bytes (endianness pf) (matrix ctm) in
  for_store 18 0
    (fun i => w ← uint32_at (endianness pf) mem i; Some (to_long pf w))
    padded_ctm.

(** The 32 bits that an element of a [long] array stands for in a property
    of format 32. *)
Definition blob_word (l : Z) : Z := Z.land l (Z.ones 32).

(** The reassembly of the words (it is not part of the program): they are
    laid out as [uint32_t] in the order of the blob, and the bytes are
    taken eight at a time as the [int64_t] that they represent. *)
Definition uint32_array_bytes (bo : byte_order) (ws : list Z)
    : list Byte.byte :=
  flat_map (fun w => store_uint bo 4 w) ws.

Definition int64_at (bo : byte_order) (mem : list Byte.byte) (i : nat) : Z :=
  to_int64 (load_uint bo (take 8 (drop (8 * i) mem))).

Definition unpack (pf : platform) (blob : list Z) : list Z :=
  let mem := uint32_array_bytes (endianness pf) (map blob_word blob) in
  map (int64_at (endianness pf) mem) (seq 0 (length blob / 2)).

(** The two halves of the 64 bits of an entry. *)
Definition low_half (w : Z) : Z := Z.land (to_uint64 w) (Z.ones 32).
Definition high_half (w : Z) : Z := Z.shiftr (to_uint64 w) 32.

(** ** Xlib and RandR *)

Definition Atom : Type := Z.
Definition RROutput : Type := Z.

(** Constants of [X11/X.h] and [X11/Xatom.h]. *)
Definition Success : Z := 0.
Definition BadAtom : Z := 5.
Definition BadName : Z := 15.
Definition PropModeReplace : Z := 0.
Definition XA_INTEGER : Atom := 19.

Definition PROP_CTM : string := "CTM".

Inductive randr_format := FORMAT_16_BIT | FORMAT_32_BIT.

Definition format_bits (f : randr_format) : Z :=
  match f with
  | FORMAT_16_BIT => 16
  | FORMAT_32_BIT => 32
  end.

(** The fields of the RandR structures that the program reads. *)
Record XRRScreenResources := { outputs : list RROutput }.
Record XRROutputInfo := { info_name : string }.
Record XRRPropertyInfo := { num_values : Z; values : list Z }.

(** The calls that the program makes on the display connection. *)
Inductive xcall : Type :=
| XInternAtom (atom_name : string) (only_if_exists : bool)
| XRRQueryOutputProperty (output : RROutput) (property : Atom)
| XRRChangeOutputProperty (output : RROutput) (property type : Atom)
    (format mode : Z) (data : list Z) (nelements : Z)
| XSync (discard : bool)
| XRRGetOutputInfo (resources : XRRScreenResources) (output : RROutput)
| XRRFreeOutputInfo (output_info : XRROutputInfo).

(** What a call returns; a pointer that may be [NULL] is an option. *)
Definition xret (c : xcall) : Type :=
  match c with
  | XInternAtom _ _ => Atom
  | XRRQueryOutputProperty _ _ => option XRRPropertyInfo
  | XRRChangeOutputProperty _ _ _ _ _ _ _ => unit
  | XSync _ => Z
  | XRRGetOutputInfo _ _ => option XRROutputInfo
  | XRRFreeOutputInfo _ => unit
  end.

(** A computation that calls the display service: it returns, or makes a
    call and continues with the answer, or has undefined behaviour. *)
Inductive X (R : Type) : Type :=
| Ret (r : R)
| Call (c : xcall) (k : xret c -> X R)
| Undef.

Arguments Ret {R} r.
Arguments Call {R} c k.
Arguments Undef {R}.

Fixpoint bind {A B : Type} (p : X A) (f : A -> X B) : X B :=
  match p with
  | Ret r => f r
  | Call c k => Call c (fun a => bind (k a) f)
  | Undef => Undef
  end.

#[global] Instance X_ret : MRet X := @Ret.
#[global] Instance X_bind : MBind X := fun A B f p => bind p f.

Definition call (c : xcall) : X (xret c) := Call c Ret.

(** The answer of the display service to a call: a reply, or the code of
    an error. *)
Inductive xresult (A S : Type) : Type :=
| XReply (a : A) (s : S)
| XError (error_code : Z) (s : S).

Arguments XReply {A S} a s.
Arguments XError {A S} error_code s.

(** A display service: a state, and an answer to every call in every
    state. *)
Record xserver := {
  xstate : Type;
  xanswer : forall c : xcall, xstate -> xresult (xret c) xstate
}.

Inductive outcome (S R : Type) : Type :=
| Returned (r : R) (s : S)
| Exited (error_code : Z) (s : S)
| Undefined.

Arguments Returned {S R} r s.
Arguments Exited {S R} error_code s.
Arguments Undefined {S R}.

(** The run of a computation on a service: the outcome and the calls made,
    in order. Xlib hands an error of the service to the error handler of
    the client; the program installs none, and the default handler prints
    the error and ends the process: a call that the service answers with an
    error does not return. *)
Fixpoint run {R : Type} (srv : xserver) (p : X R) (s : xstate srv)
    : outcome (xstate srv) R * list xcall :=
  match p with
  | Ret r => (Returned r s, [])
  | Undef => (Undefined, [])
  | Call c k =>
      match xanswer srv c s with
      | XError error_code s' => (Exited error_code s', [c])
      | XReply a s' =>
          let '(o, tr) := run srv (k a) s' in (o, c :: tr)
      end
  end.

Definition is_change_property (c : xcall) : bool :=
  match c with
  | XRRChangeOutputProperty _ _ _ _ _ _ _ => true
  | _ => false
  end.

Definition is_sync (c : xcall) : bool :=
  match c with
  | XSync _ => true
  | _ => false
  end.

(** A call that leaves the state of the service as it is. *)
Definition read_only (srv : xserver) (c : xcall) : Prop :=
  forall s a s', xanswer srv c s = XReply a s' -> s' = s.

(** ** The functions of the program *)

(** [strcmp]: only the sign of the result is specified. *)
Definition strcmp (a b : string) : Z :=
  match String.compare a b with
  | Eq => 0
  | Lt => -1
  | Gt => 1
  end.

Fixpoint find_output_loop (res : XRRScreenResources) (outs : list RROutput)
    (name : string) : X RROutput :=
  match outs with
  | [] => Ret 0
  | ret :: rest =>
      oi ← call (XRRGetOutputInfo res ret);
      match oi with
      | None => Undef
      | Some output_info =>
          if strcmp name (info_name output_info) =? 0 then
            _ ← call (XRRFreeOutputInfo output_info);
            Ret ret
          else
            _ ← call (XRRFreeOutputInfo output_info);
            find_output_loop res rest name
      end
  end.

Definition find_output_by_name (res : XRRScreenResources) (name : string)
    : X RROutput :=
  find_output_loop res (outputs res) name.

Definition set_output_blob (output : RROutput) (prop_name : string)
    (blob_data : list Z) (blob_bytes : Z) (format : randr_format) : X Z :=
  prop_atom ← call (XInternAtom prop_name true);
  if prop_atom =? 0 then Ret BadAtom
  else
    prop_info ← call (XRRQueryOutputProperty output prop_atom);
    match prop_info with
    | None => Ret BadName
    | Some _ =>
        _ ← call (XRRChangeOutputProperty output prop_atom XA_INTEGER
                    (format_bits format) PropModeReplace blob_data
                    (blob_bytes / Z.shiftr (format_bits format) 3));
        _ ← call (XSync false);
        Ret Success
    end.

(** [sizeof(struct _drm_color_ctm)] *)
Definition blob_size : Z := 72.

(** [ctm] and [padded_ctm] are the contents of the two local arrays when
    the function is entered. *)
Definition set_ctm (pf : platform) (output : RROutput) (coeffs : list double)
    (ctm : _drm_color_ctm) (padded_ctm : list Z) : X Z :=
  match coeffs_to_ctm coeffs ctm with
  | None => Undef
  | Some ctm' =>
      match pack pf ctm' padded_ctm with
      | None => Undef
      | Some padded_ctm' =>
          set_output_blob output PROP_CTM padded_ctm' blob_size FORMAT_32_BIT
      end
  end.

Definition identity_ctm : list double :=
  [Double.one; Double.zero; Double.zero;
   Double.zero; Double.one; Double.zero;
   Double.zero; Double.zero; Double.one].

(** The matrix [temp] that [parse_user_ctm] computes from [value]. *)
Definition saturation_ctm (value : double) : list double :=
  let s := Double.div (Double.sub Double.one value) Double.three in
  [Double.add s value; s; s;
   s; Double.add s value; s;
   s; s; Double.add s value].

(** [memcpy(dst, src, sizeof(double) * n)] *)
Definition memcpy (dst src : list double) (n : nat) : list double :=
  take n src ++ drop n dst.

(** [strtod] is the function of the C library; [ctm_opt] is [None] for a
    null pointer. The result is the return value and the contents of
    [coeffs]. *)
Definition parse_user_ctm (strtod : string -> double)
    (ctm_opt : option string) (coeffs : list double) : Z * list double :=
  match ctm_opt with
  | None => (0, coeffs)
  | Some opt =>
      if strcmp opt "default" =? 0 then (1, memcpy coeffs identity_ctm 9)
      else
        let value := strtod opt in
        if Double.eqb value Double.zero then (0, coeffs)
        else (1, memcpy coeffs (saturation_ctm value) 9)
  end.

(** ** A display service for the examples

    One property name is registered, [CTM]; output 61, [HDMI-A-0], has the
    property and output 62, [DisplayPort-0], has not. A property change is
    queued until the next [XSync], which reports [BadValue] when a queued
    change has a format other than 8, 16 or 32. *)

Record sample_state := { queued : list xcall; applied : list xcall }.

Definition BadValue : Z := 2.

Definition sample_valid (c : xcall) : bool :=
  match c with
  | XRRChangeOutputProperty _ _ _ format _ _ _ =>
      (format =? 8) || (format =? 16) || (format =? 32)
  | _ => true
  end.

Definition sample_answer (c : xcall) (s : sample_state)
    : xresult (xret c) sample_state :=
  match c return xresult (xret c) sample_state with
  | XInternAtom n _ => XReply (if String.eqb n "CTM" then 70 else 0) s
  | XRRQueryOutputProperty o a =>
      XReply (if (o =? 61) && (a =? 70)
              then Some {| num_values := 0; values := [] |}
              else None) s
  | XRRChangeOutputProperty o a t f m d n =>
      XReply tt
        {| queued := queued s ++ [XRRChangeOutputProperty o a t f m d n];
           applied := applied s |}
  | XSync _ =>
      if forallb sample_valid (queued s)
      then XReply 1 {| queued := []; applied := applied s ++ queued s |}
      else XError BadValue {| queued := []; applied := applied s |}
  | XRRGetOutputInfo _ o =>
      XReply (if o =? 61 then Some {| info_name := "HDMI-A-0" |}
              else if o =? 62 then Some {| info_name := "DisplayPort-0" |}
              else None) s
  | XRRFreeOutputInfo _ => XReply tt s
  end.

Definition sample_server : xserver :=
  {| xstate := sample_state; xanswer := sample_answer |}.

Definition sample_start : sample_state := {| queued := []; applied := [] |}.

Definition sample_resources : XRRScreenResources := {| outputs := [61; 62] |}.

Definition sample_name (o : RROutput) : string :=
  if o =? 61 then "HDMI-A-0" else "DisplayPort-0".

Definition sample_platform : platform :=
  {| endianness := LittleEndian; long_bits := 64 |}.

(** ** The range of a double *)

(** The binary64 numbers of absolute value below [2^k]: a zero, or a finite
    number with at most [k] binary digits before the point. *)
Definition below (k : Z) (x : double) : Prop :=
  match x with
  | S754_zero _ => True
  | S754_finite _ m e =>
      bounded Double.prec Double.emax m e = true
      /\ Z.pos (digits2_pos m) + e <= k
  | _ => False
  end.

(** ** The short help *)

(** The string in a buffer of characters: the characters before the first
    NUL. There is none when the buffer holds no NUL: reading it as a string
    runs past its end. *)
Fixpoint c_string (buf : list ascii) : option (list ascii) :=
  match buf with
  | [] => None
  | c :: rest =>
      if Ascii.eqb c Ascii.zero then Some []
      else s ← c_string rest; Some (c :: s)
  end.

Definition strlen (buf : list ascii) : option nat := length <$> c_string buf.

(** The [n] characters that [strncpy] writes: the characters of [src] up to
    its NUL, then NULs; when [src] has no NUL among its first [n]
    characters, no NUL is written. *)
Fixpoint strncpy_chars (src : list ascii) (n : nat) {struct n}
    : option (list ascii) :=
  match n with
  | O => Some []
  | S n' =>
      match src with
      | [] => None
      | c :: src' =>
          if Ascii.eqb c Ascii.zero then Some (repeat Ascii.zero (S n'))
          else cs ← strncpy_chars src' n'; Some (c :: cs)
      end
  end.

(** [strncpy(dst, src, n)]: the contents of [dst] afterwards; undefined
    when [dst] has less than [n] characters. *)
Definition strncpy (dst src : list ascii) (n : nat) : option (list ascii) :=
  if (n <=? length dst)%nat
  then cs ← strncpy_chars src n; Some (cs ++ drop n dst)
  else None.

(** [for (i = 0; i < len; i++) if (HELP_STR[i] == '\n') break;]: the value
    of [i] after the loop, [n] iterations from [i]. *)
Fixpoint first_newline (HELP_STR : list ascii) (n i : nat) : option nat :=
  match n with
  | O => Some i
  | S n' =>
      c ← HELP_STR !! i;
      if Ascii.eqb c "010" then Some i else first_newline HELP_STR n' (S i)
  end.

(** [HELP_STR] is the array of the help text, and [malloc n] the contents of
    a new block of [n] bytes, or [None] for a null pointer. The result is
    the string that [printf("%s\n", short_help)] prints; there is none when
    the behaviour is undefined. *)
Definition print_short_help (HELP_STR : list ascii)
    (malloc : nat -> option (list ascii)) : option (list ascii) :=
  l ← strlen HELP_STR;
  let len := Z.to_nat (Z.of_nat l mod 2 ^ 32) in
  i ← first_newline HELP_STR len 0;
  short_help ← malloc i;
  short_help' ← strncpy short_help HELP_STR i;
  c_string short_help'.

(** ** [main] *)

(** What [getopt] returns for one option of the command line: the
    character of the option, and [optarg]. *)
Definition getopt_result : Type := ascii * option string.

Definition Display : Type := unit.

(** The calls of [main]: the opening and closing of the display, the
    screen resources, and the calls of [find_output_by_name] and [set_ctm]
    on the display. What the program prints is not part of the model. *)
Inductive mcall : Type :=
| XOpenDisplay (display_name : option string)
| XRRGetScreenResourcesCurrent
| XRRFreeScreenResources (resources : XRRScreenResources)
| XCloseDisplay
| OnDisplay (c : xcall).

Definition mans (c : mcall) : Type :=
  match c with
  | XOpenDisplay _ => option Display
  | XRRGetScreenResourcesCurrent => option XRRScreenResources
  | XRRFreeScreenResources _ => unit
  | XCloseDisplay => Z
  | OnDisplay c => xret c
  end.

Inductive M (R : Type) : Type :=
| Result (r : R)
| Step (c : mcall) (k : mans c -> M R)
| Fault.

Arguments Result {R} r.
Arguments Step {R} c k.
Arguments Fault {R}.

Fixpoint M_then {A B : Type} (p : M A) (f : A -> M B) : M B :=
  match p with
  | Result r => f r
  | Step c k => Step c (fun a => M_then (k a) f)
  | Fault => Fault
  end.

#[global] Instance M_ret : MRet M := @Result.
#[global] Instance M_bind : MBind M := fun A B f p => M_then p f.

Definition step (c : mcall) : M (mans c) := Step c Result.

(** A computation on the display, as a part of [main]. *)
Fixpoint on_display {R : Type} (p : X R) : M R :=
  match p with
  | Ret r => Result r
  | Call c k => Step (OnDisplay c) (fun a => on_display (k a))
  | Undef => Fault
  end.

(** The environment of [main]: a state, and an answer to every call. *)
Record menv := {
  mstate : Type;
  manswer : forall c : mcall, mstate -> xresult (mans c) mstate
}.

(** The display service that an environment holds. *)
Definition display_of (env : menv) : xserver :=
  {| xstate := mstate env;
     xanswer := fun c s => manswer env (OnDisplay c) s |}.

Fixpoint mrun {R : Type} (env : menv) (p : M R) (s : mstate env)
    : outcome (mstate env) R * list mcall :=
  match p with
  | Result r => (Returned r s, [])
  | Fault => (Undefined, [])
  | Step c k =>
      match manswer env c s with
      | XError error_code s' => (Exited error_code s', [c])
      | XReply a s' =>
          let '(o, tr) := mrun env (k a) s' in (o, c :: tr)
      end
  end.

(** A call of [print_short_help] in [main]. *)
Definition call_print_short_help (HELP_STR : list ascii)
    (malloc : nat -> option (list ascii)) : M unit :=
  match print_short_help HELP_STR malloc with
  | None => Fault
  | Some _ => Result tt
  end.

(** [printf("%s", HELP_STR)] in [main]: the array is read as a string. *)
Definition print_help (HELP_STR : list ascii) : M unit :=
  match c_string HELP_STR with
  | None => Fault
  | Some _ => Result tt
  end.

(** The loop [while ((opt = getopt(...)) != -1)] on the options that are
    left: the value that [main] returns from inside the loop, or
    [ctm_opt] and [output_name] after it. *)
Fixpoint main_options (HELP_STR : list ascii)
    (malloc : nat -> option (list ascii)) (opts : list getopt_result)
    (ctm_opt output_name : option string)
    : M (Z + option string * option string) :=
  match opts with
  | [] => Result (inr (ctm_opt, output_name))
  | (opt, optarg) :: rest =>
      if Ascii.eqb opt "v" then Result (inl 0)
      else if Ascii.eqb opt "c" then
        main_options HELP_STR malloc rest optarg output_name
      else if Ascii.eqb opt "o" then
        main_options HELP_STR malloc rest ctm_opt optarg
      else if Ascii.eqb opt "h" then
        _ ← print_help HELP_STR; Result (inl 0)
      else
        _ ← call_print_short_help HELP_STR malloc; Result (inl 1)
  end.

(** The statements of [main] from [XOpenDisplay] on, once the arguments
    are checked; [ctm_coeffs] holds the matrix that [parse_user_ctm] made,
    and [ctm] and [padded_ctm] are the contents of the local arrays of
    [set_ctm] when it is entered. *)
Definition main_display (pf : platform) (output_name : string)
    (ctm_coeffs : list double) (ctm : _drm_color_ctm)
    (padded_ctm : list Z) : M Z :=
  dpy ← step (XOpenDisplay None);
  match dpy with
  | None => Result 1
  | Some _ =>
      res ← step XRRGetScreenResourcesCurrent;
      match res with
      | None => Fault
      | Some res =>
          output ← on_display (find_output_by_name res output_name);
          ret ← (if output =? 0 then Result 1
                 else on_display (set_ctm pf output ctm_coeffs ctm
                                    padded_ctm));
          _ ← step (XRRFreeScreenResources res);
          _ ← step XCloseDisplay;
          Result ret
      end
  end.

(** [opts] are the options that [getopt] finds on the command line, and
    [ctm_coeffs] is the contents of the local array of [main] when it is
    entered. *)
Definition main (pf : platform) (HELP_STR : list ascii)
    (malloc : nat -> option (list ascii)) (strtod : string -> double)
    (opts : list getopt_result) (ctm_coeffs : list double)
    (ctm : _drm_color_ctm) (padded_ctm : list Z) : M Z :=
  r ← main_options HELP_STR malloc opts None None;
  match r with
  | inl ret => Result ret
  | inr (ctm_opt, None) =>
      _ ← call_print_short_help HELP_STR malloc; Result 1
  | inr (ctm_opt, Some output_name) =>
      let '(ctm_changed, ctm_coeffs') :=
        parse_user_ctm strtod ctm_opt ctm_coeffs in
      if ctm_changed =? 0 then
        _ ← call_print_short_help HELP_STR malloc; Result 1
      else main_display pf output_name ctm_coeffs' ctm padded_ctm
  end.

(** The options [-c] and [-o], which set a variable of [main], and for
    such an option the argument of its last occurrence. *)
Definition is_setting (r : getopt_result) : bool :=
  Ascii.eqb (fst r) "c" || Ascii.eqb (fst r) "o".

Fixpoint last_optarg (c : ascii) (opts : list getopt_result)
    (d : option string) : option string :=
  match opts with
  | [] => d
  | (opt, optarg) :: rest =>
      last_optarg c rest (if Ascii.eqb opt c then optarg else d)
  end.

(** The environment of the examples: the display opens, and its service
    is the sample service. *)
Definition sample_manswer (c : mcall) (s : sample_state)
    : xresult (mans c) sample_state :=
  match c return xresult (mans c) sample_state with
  | XOpenDisplay _ => XReply (Some tt) s
  | XRRGetScreenResourcesCurrent => XReply (Some sample_resources) s
  | XRRFreeScreenResources _ => XReply tt s
  | XCloseDisplay => XReply 0 s
  | OnDisplay c => sample_answer c s
  end.

Definition sample_env : menv :=
  {| mstate := sample_state; manswer := sample_manswer |}.

(** An environment whose display opens and has no screen resources. *)
Definition no_screen_manswer (c : mcall) (s : sample_state)
    : xresult (mans c) sample_state :=
  match c return xresult (mans c) sample_state with
  | XRRGetScreenResourcesCurrent => XReply None s
  | c => sample_manswer c s
  end.

Definition no_screen_env : menv :=
  {| mstate := sample_state; manswer := no_screen_manswer |}.

(** A help text and an allocator for the examples; a new block of [n]
    bytes holds [n] characters, here NULs. *)
Definition sample_help : list ascii :=
  list_ascii_of_string "Usage: xsatmgr -o OUTPUT -c VALUE" ++ ["010"%char]
  ++ list_ascii_of_string "Options:" ++ ["010"%char; "000"%char].

Definition sample_malloc (n : nat) : option (list ascii) :=
  Some (repeat "000"%char n).

(** * Properties *)

(** ** Calls to the display service *)

Lemma strcmp_eq (a b : string) : strcmp a b = 0 <-> a = b.
Proof.
  unfold strcmp. split.
  - intros H. apply String.compare_eq_iff.
    by destruct (String.compare a b).
  - intros ->. pose proof (String.compare_antisym b b) as H.
    by destruct (String.compare b b).
Qed.

Lemma strcmp_eqb (a b : string) :
  (strcmp a b =? 0) = String.eqb a b.
Proof.
  destruct (Z.eqb_spec (strcmp a b) 0) as [H | H];
    rewrite strcmp_eq in H; symmetry.
  - by apply String.eqb_eq.
  - by apply String.eqb_neq.
Qed.

(** The loop of [find_output_by_name] on a service that knows the name of
    every output of the list and leaves its state as it is. *)
Lemma find_output_loop_run (srv : xserver) (names : RROutput -> string)
    (res : XRRScreenResources) (name : string) (outs : list RROutput) :
  (forall o s, o ∈ outs ->
     exists oi, xanswer srv (XRRGetOutputInfo res o) s = XReply (Some oi) s
                /\ info_name oi = names o) ->
  (forall oi s, xanswer srv (XRRFreeOutputInfo oi) s = XReply tt s) ->
  forall s,
    fst (run srv (find_output_loop res outs name) s) =
    Returned
      (match List.find (fun o => String.eqb name (names o)) outs with
       | Some o => o
       | None => 0
       end) s.
Proof.
  intros Hinfo Hfree. induction outs as [| o outs IH]; intros s; [done |].
  destruct (Hinfo o s) as (oi & Hoi & Hname); [by left |].
  simpl. unfold mbind, X_bind. simpl. rewrite Hoi. simpl.
  rewrite strcmp_eqb, Hname.
  destruct (String.eqb name (names o)); simpl; rewrite Hfree; simpl.
  - done.
  - specialize (IH (fun o' s' Hin =>
                      Hinfo o' s' (list_elem_of_further _ _ _ Hin)) s).
    destruct (run srv (find_output_loop res outs name) s). simpl in *.
    done.
Qed.

(** C9: on a service that enumerates the outputs of [res] with the names
    [names], [find_output_by_name] returns the first output of the list
    whose name is exactly the requested one, and 0 ([None], not found) when
    no output of the list has that name. *)
Theorem find_output_by_name_first_match (srv : xserver)
    (names : RROutput -> string) (res : XRRScreenResources) (name : string)
    (s : xstate srv) :
  (forall o s0, o ∈ outputs res ->
     exists oi, xanswer srv (XRRGetOutputInfo res o) s0 = XReply (Some oi) s0
                /\ info_name oi = names o) ->
  (forall oi s0, xanswer srv (XRRFreeOutputInfo oi) s0 = XReply tt s0) ->
  (forall pre o post,
     outputs res = pre ++ o :: post ->
     names o = name ->
     (forall o', o' ∈ pre -> names o' <> name) ->
     fst (run srv (find_output_by_name res name) s) = Returned o s)
  /\ ((forall o, o ∈ outputs res -> names o <> name) ->
      fst (run srv (find_output_by_name res name) s) = Returned 0 s).
Proof.
  intros Hinfo Hfree. unfold find_output_by_name.
  rewrite (find_output_loop_run srv names res name _ Hinfo Hfree).
  split.
  - intros pre o post -> Ho Hpre. f_equal.
    clear Hinfo. induction pre as [| p pre IH]; simpl.
    + by rewrite (proj2 (String.eqb_eq _ _)).
    + rewrite (proj2 (String.eqb_neq _ _)).
      * apply IH. intros o' Hin. apply Hpre. by right.
      * intros Heq. apply (Hpre p); [by left | done].
  - intros Hnone. f_equal.
    clear Hinfo. induction (outputs res) as [| p l IH]; simpl; [done |].
    rewrite (proj2 (String.eqb_neq _ _)).
    + apply IH. intros o Hin. apply Hnone. by right.
    + intros Heq. apply (Hnone p); [by left | done].
Qed.

Lemma find_output_by_name_first_match_witness :
  fst (run sample_server
         (find_output_by_name sample_resources "DisplayPort-0") sample_start)
    = Returned 62 sample_start
  /\ fst (run sample_server
            (find_output_by_name sample_resources "displayport-0")
            sample_start)
     = Returned 0 sample_start.
Proof.
  assert (Hinfo : forall o s0, o ∈ outputs sample_resources ->
     exists oi, xanswer sample_server (XRRGetOutputInfo sample_resources o) s0
                  = XReply (Some oi) s0
                /\ info_name oi = sample_name o).
  { intros o s0 Hin. simpl in Hin.
    apply elem_of_cons in Hin as [-> | Hin]; [by eexists |].
    apply elem_of_cons in Hin as [-> | Hin]; [by eexists |].
    by apply elem_of_nil in Hin. }
  assert (Hfree : forall oi s0,
     xanswer sample_server (XRRFreeOutputInfo oi) s0 = XReply tt s0) by done.
  split.
  - apply (proj1 (find_output_by_name_first_match sample_server sample_name
              sample_resources "DisplayPort-0" sample_start Hinfo Hfree)
             [61] 62 []); [done | done |].
    intros o' Hin. apply list_elem_of_singleton in Hin as ->. done.
  - apply (proj2 (find_output_by_name_first_match sample_server sample_name
              sample_resources "displayport-0" sample_start Hinfo Hfree)).
    intros o Hin. simpl in Hin.
    apply elem_of_cons in Hin as [-> | Hin]; [done |].
    apply elem_of_cons in Hin as [-> | Hin]; [done |].
    by apply elem_of_nil in Hin.
Defined.

(** C8: when the service answers the lookup of the property name with no
    atom, [set_output_blob] returns [BadAtom]; the lookup is the only call
    that was made, and no property change was submitted. *)
Theorem set_output_blob_unknown_name (srv : xserver) (s s1 : xstate srv)
    (output : RROutput) (prop_name : string) (blob_data : list Z)
    (blob_bytes : Z) (format : randr_format) :
  xanswer srv (XInternAtom prop_name true) s = XReply 0 s1 ->
  run srv (set_output_blob output prop_name blob_data blob_bytes format) s
    = (Returned BadAtom s1, [XInternAtom prop_name true])
  /\ forall c,
       c ∈ snd (run srv (set_output_blob output prop_name blob_data
                           blob_bytes format) s) ->
       is_change_property c = false.
Proof.
  intros Hatom.
  assert (Hrun : run srv (set_output_blob output prop_name blob_data
                            blob_bytes format) s
                 = (Returned BadAtom s1, [XInternAtom prop_name true])).
  { unfold set_output_blob, mbind, X_bind. simpl. by rewrite Hatom. }
  split; [done |].
  rewrite Hrun. intros c Hin. simpl in Hin.
  by apply list_elem_of_singleton in Hin as ->.
Qed.

Lemma set_output_blob_unknown_name_witness :
  run sample_server
    (set_output_blob 61 "Colour" [1; 0] 8 FORMAT_32_BIT) sample_start
  = (Returned BadAtom sample_start, [XInternAtom "Colour" true]).
Proof.
  apply (set_output_blob_unknown_name sample_server sample_start sample_start
           61 "Colour" [1; 0] 8 FORMAT_32_BIT).
  reflexivity.
Defined.

(** C10: when the property name has an atom and the query of the property
    on the output answers with nothing, [set_output_blob] returns [BadName];
    the lookup and the query are the only calls that were made, neither a
    property change nor a synchronisation was issued, and on a service whose
    lookup and query leave its state as it is, the state is the initial
    one. *)
Theorem set_output_blob_property_not_on_output (srv : xserver)
    (s s1 s2 : xstate srv) (output : RROutput) (prop_name : string)
    (prop_atom : Atom) (blob_data : list Z) (blob_bytes : Z)
    (format : randr_format) :
  xanswer srv (XInternAtom prop_name true) s = XReply prop_atom s1 ->
  prop_atom <> 0 ->
  xanswer srv (XRRQueryOutputProperty output prop_atom) s1 = XReply None s2 ->
  run srv (set_output_blob output prop_name blob_data blob_bytes format) s
    = (Returned BadName s2,
       [XInternAtom prop_name true; XRRQueryOutputProperty output prop_atom])
  /\ (forall c,
        c ∈ snd (run srv (set_output_blob output prop_name blob_data
                            blob_bytes format) s) ->
        is_change_property c = false /\ is_sync c = false)
  /\ (read_only srv (XInternAtom prop_name true) ->
      read_only srv (XRRQueryOutputProperty output prop_atom) ->
      s2 = s).
Proof.
  intros Hatom Hnz Hquery.
  assert (Hrun : run srv (set_output_blob output prop_name blob_data
                            blob_bytes format) s
                 = (Returned BadName s2,
                    [XInternAtom prop_name true;
                     XRRQueryOutputProperty output prop_atom])).
  { unfold set_output_blob, mbind, X_bind. simpl. rewrite Hatom.
    apply Z.eqb_neq in Hnz. rewrite Hnz. simpl. by rewrite Hquery. }
  split; [done |]. split.
  - rewrite Hrun. intros c Hin. simpl in Hin.
    apply elem_of_cons in Hin as [-> | Hin]; [done |].
    by apply list_elem_of_singleton in Hin as ->.
  - intros Hro1 Hro2. apply Hro1 in Hatom. apply Hro2 in Hquery. congruence.
Qed.

Lemma set_output_blob_property_not_on_output_witness :
  run sample_server
    (set_output_blob 62 PROP_CTM [1; 0] 8 FORMAT_32_BIT) sample_start
  = (Returned BadName sample_start,
     [XInternAtom PROP_CTM true; XRRQueryOutputProperty 62 70]).
Proof.
  apply (set_output_blob_property_not_on_output sample_server sample_start
           sample_start sample_start 62 PROP_CTM 70 [1; 0] 8 FORMAT_32_BIT).
  - reflexivity.
  - discriminate.
  - reflexivity.
Defined.

(** An error that the service reports for the property change or for the
    synchronisation ends the run: [set_output_blob] does not return. *)
Lemma set_output_blob_sync_error (srv : xserver) (s s1 s2 s3 s4 : xstate srv)
    (output : RROutput) (prop_name : string) (prop_atom : Atom)
    (prop_info : XRRPropertyInfo) (blob_data : list Z) (blob_bytes : Z)
    (format : randr_format) (error_code : Z) :
  xanswer srv (XInternAtom prop_name true) s = XReply prop_atom s1 ->
  prop_atom <> 0 ->
  xanswer srv (XRRQueryOutputProperty output prop_atom) s1
    = XReply (Some prop_info) s2 ->
  xanswer srv (XRRChangeOutputProperty output prop_atom XA_INTEGER
                 (format_bits format) PropModeReplace blob_data
                 (blob_bytes / Z.shiftr (format_bits format) 3)) s2
    = XReply tt s3 ->
  xanswer srv (XSync false) s3 = XError error_code s4 ->
  fst (run srv (set_output_blob output prop_name blob_data blob_bytes
                  format) s) = Exited error_code s4.
Proof.
  intros Hatom Hnz Hquery Hchange Hsync.
  unfold set_output_blob, mbind, X_bind. simpl. rewrite Hatom.
  apply Z.eqb_neq in Hnz. rewrite Hnz. simpl. rewrite Hquery. simpl.
  rewrite Hchange. simpl. by rewrite Hsync.
Qed.

(** C7: [set_output_blob] returns [Success] only when the atom of the name
    was found, the property exists on the output, the blob was submitted
    with [XRRChangeOutputProperty] as an array of type [XA_INTEGER] in
    format 32, and the [XSync] that follows was answered with a reply, not
    with an error; these four are the calls that were made, in this order,
    and the final state is the one after [XSync]. *)
Theorem set_output_blob_success (srv : xserver) (s s' : xstate srv)
    (tr : list xcall) (output : RROutput) (prop_name : string)
    (blob_data : list Z) (blob_bytes : Z) :
  run srv (set_output_blob output prop_name blob_data blob_bytes
             FORMAT_32_BIT) s = (Returned Success s', tr) ->
  exists (prop_atom : Atom) (prop_info : XRRPropertyInfo) (r : Z)
         (s1 s2 s3 : xstate srv),
    xanswer srv (XInternAtom prop_name true) s = XReply prop_atom s1
    /\ prop_atom <> 0
    /\ xanswer srv (XRRQueryOutputProperty output prop_atom) s1
       = XReply (Some prop_info) s2
    /\ xanswer srv (XRRChangeOutputProperty output prop_atom XA_INTEGER 32
                      PropModeReplace blob_data (blob_bytes / 4)) s2
       = XReply tt s3
    /\ xanswer srv (XSync false) s3 = XReply r s'
    /\ tr = [XInternAtom prop_name true;
             XRRQueryOutputProperty output prop_atom;
             XRRChangeOutputProperty output prop_atom XA_INTEGER 32
               PropModeReplace blob_data (blob_bytes / 4);
             XSync false].
Proof.
  unfold set_output_blob, mbind, X_bind. simpl.
  destruct (xanswer srv (XInternAtom prop_name true) s)
    as [prop_atom s1 | code s1] eqn:Hatom; [| done].
  destruct (Z.eqb_spec prop_atom 0) as [Hz | Hnz]; simpl; [done |].
  destruct (xanswer srv (XRRQueryOutputProperty output prop_atom) s1)
    as [[prop_info |] s2 | code s2] eqn:Hquery; simpl; [| done | done].
  change (Z.shiftr 32 3) with 4.
  destruct (xanswer srv (XRRChangeOutputProperty output prop_atom XA_INTEGER
                           32 PropModeReplace blob_data (blob_bytes / 4)) s2)
    as [[] s3 | code s3] eqn:Hchange; simpl; [| done].
  destruct (xanswer srv (XSync false) s3) as [r s4 | code s4] eqn:Hsync;
    simpl; [| done].
  intros [= <- <-].
  by exists prop_atom, prop_info, r, s1, s2, s3.
Qed.

Lemma set_output_blob_success_witness :
  exists (prop_atom : Atom) (prop_info : XRRPropertyInfo) (r : Z)
         (s1 s2 s3 : sample_state),
    sample_answer (XInternAtom PROP_CTM true) sample_start
      = XReply prop_atom s1
    /\ prop_atom <> 0
    /\ sample_answer (XRRQueryOutputProperty 61 prop_atom) s1
       = XReply (Some prop_info) s2
    /\ sample_answer (XRRChangeOutputProperty 61 prop_atom XA_INTEGER 32
                        PropModeReplace [1; 0] (8 / 4)) s2
       = XReply tt s3
    /\ sample_answer (XSync false) s3
       = XReply r {| queued := [];
                     applied := [XRRChangeOutputProperty 61 70 XA_INTEGER 32
                                   PropModeReplace [1; 0] 2] |}
    /\ [XInternAtom PROP_CTM true; XRRQueryOutputProperty 61 70;
        XRRChangeOutputProperty 61 70 XA_INTEGER 32 PropModeReplace [1; 0] 2;
        XSync false]
       = [XInternAtom PROP_CTM true;
          XRRQueryOutputProperty 61 prop_atom;
          XRRChangeOutputProperty 61 prop_atom XA_INTEGER 32
            PropModeReplace [1; 0] (8 / 4);
          XSync false].
Proof.
  apply (set_output_blob_success sample_server sample_start _ _ 61 PROP_CTM
           [1; 0] 8).
  reflexivity.
Defined.

(** ** The matrix of a saturation value *)

Lemma memcpy_all (dst src : list double) (n : nat) :
  length dst = n -> length src = n -> memcpy dst src n = src.
Proof.
  intros Hdst Hsrc. unfold memcpy.
  rewrite take_ge, drop_ge by lia. apply app_nil_r.
Qed.

Lemma saturation_ctm_one : saturation_ctm Double.one = identity_ctm.
Proof. reflexivity. Qed.

(** C5, as the code has it: for every finite saturation value other than
    zero, [parse_user_ctm] accepts the request and fills the coefficients
    with the row-major matrix that has [s = (1 - v) / 3] off the diagonal
    and [s + v] on it, in double arithmetic; the value 1 gives the identity
    matrix, and no value is clamped. *)
Theorem parse_user_ctm_saturation (strtod : string -> double) (opt : string)
    (coeffs : list double) (value : double) :
  length coeffs = 9%nat ->
  strcmp opt "default" <> 0 ->
  strtod opt = value ->
  Double.is_finite value = true ->
  Double.eqb value Double.zero = false ->
  let s := Double.div (Double.sub Double.one value) Double.three in
  parse_user_ctm strtod (Some opt) coeffs
    = (1, [Double.add s value; s; s;
           s; Double.add s value; s;
           s; s; Double.add s value])
  /\ (value = Double.one ->
      parse_user_ctm strtod (Some opt) coeffs = (1, identity_ctm)).
Proof.
  intros Hlen Hopt Hval Hfin Hnz s.
  assert (Hrun : parse_user_ctm strtod (Some opt) coeffs
                 = (1, saturation_ctm value)).
  { unfold parse_user_ctm. apply Z.eqb_neq in Hopt. rewrite Hopt, Hval, Hnz.
    by rewrite memcpy_all. }
  split; [exact Hrun |].
  intros ->. by rewrite Hrun, saturation_ctm_one.
Qed.

Lemma parse_user_ctm_saturation_witness :
  parse_user_ctm (fun _ => Double.opp Double.one) (Some "-1"%string)
    (repeat Double.zero 9)
  = (1, saturation_ctm (Double.opp Double.one)).
Proof.
  apply (parse_user_ctm_saturation (fun _ => Double.opp Double.one) "-1"
           (repeat Double.zero 9) (Double.opp Double.one));
    [reflexivity | discriminate | reflexivity | reflexivity | reflexivity].
Defined.

(** C5 does not hold for every finite value: the value zero is finite, and
    the request is refused. *)
Lemma parse_user_ctm_saturation_counterexample :
  ~ (forall (strtod : string -> double) (opt : string)
            (coeffs : list double),
       length coeffs = 9%nat ->
       strcmp opt "default" <> 0 ->
       Double.is_finite (strtod opt) = true ->
       parse_user_ctm strtod (Some opt) coeffs
       = (1, saturation_ctm (strtod opt))).
Proof.
  intros H.
  specialize (H (fun _ => Double.zero) "0"%string identity_ctm).
  by specialize (H eq_refl ltac:(discriminate) eq_refl).
Qed.

(** C6, as the code has it: a saturation value that compares equal to zero
    is refused: [parse_user_ctm] returns 0 and leaves the coefficients as
    they were. The formula at the value zero gives the double nearest to 1/3
    in every entry. *)
Theorem parse_user_ctm_zero_refused (strtod : string -> double)
    (opt : string) (coeffs : list double) :
  strcmp opt "default" <> 0 ->
  Double.eqb (strtod opt) Double.zero = true ->
  parse_user_ctm strtod (Some opt) coeffs = (0, coeffs)
  /\ saturation_ctm Double.zero
     = repeat (Double.div Double.one Double.three) 9
  /\ (Qabs (Double.to_Q (Double.div Double.one Double.three) - (1 # 3))
      < 1 # 2 ^ 55)%Q.
Proof.
  intros Hopt Hz. split; [| split].
  - unfold parse_user_ctm. apply Z.eqb_neq in Hopt. by rewrite Hopt, Hz.
  - reflexivity.
  - reflexivity.
Qed.

Lemma parse_user_ctm_zero_refused_witness :
  parse_user_ctm (fun _ => S754_zero true) (Some "-0.0"%string) identity_ctm
  = (0, identity_ctm).
Proof.
  apply (parse_user_ctm_zero_refused (fun _ => S754_zero true) "-0.0"
           identity_ctm); [discriminate | reflexivity].
Defined.

(** C6 fails on the code: the request for the value zero is not accepted,
    and the coefficients are not the matrix of thirds. *)
Lemma parse_user_ctm_zero_counterexample :
  fst (parse_user_ctm (fun _ => Double.zero) (Some "0.0"%string)
         identity_ctm) = 0
  /\ snd (parse_user_ctm (fun _ => Double.zero) (Some "0.0"%string)
            identity_ctm)
     <> repeat (Double.div Double.one Double.three) 9.
Proof. split; [reflexivity | discriminate]. Qed.

(** ** Loops that fill an array *)

Lemma for_store_Some {A : Type} (f : nat -> option A) (n : nat) :
  forall (i : nat) (a : list A),
    (forall j, (i <= j < i + n)%nat -> is_Some (f j)) ->
    exists a', for_store n i f a = Some a'
      /\ length a' = length a
      /\ forall j, (j < length a)%nat ->
           a' !! j = if decide (i <= j < i + n)%nat then f j else a !! j.
Proof.
  induction n as [| n IH]; intros i a Hf; simpl.
  - exists a. split; [done |]. split; [done |].
    intros j _. destruct (decide (i <= j < i + 0)%nat); [lia | done].
  - destruct (Hf i) as [v Hv]; [lia |]. rewrite Hv. simpl.
    destruct (IH (S i) (<[i:=v]> a)) as (a' & Hrun & Hlen & Hlook).
    { intros j Hj. apply Hf. lia. }
    exists a'. split; [done |]. rewrite length_insert in Hlen, Hlook.
    split; [done |].
    intros j Hj. rewrite (Hlook j Hj).
    destruct (decide (S i <= j < S i + n)%nat) as [Hin | Hout].
    + destruct (decide (i <= j < i + S n)%nat); [done | lia].
    + destruct (decide (i <= j < i + S n)%nat) as [Hin' | Hout'].
      * assert (j = i) as -> by lia.
        by rewrite list_lookup_insert_eq.
      * rewrite list_lookup_insert_ne; [done | lia].
Qed.

(** ** The signed-magnitude encoding *)

Lemma sign_bit_set (m : Z) :
  0 <= m < 2 ^ 63 ->
  to_int64 (Z.lor (to_uint64 m) (Z.shiftl 1 63)) = m - 2 ^ 63.
Proof.
  intros Hm. unfold to_uint64, to_int64.
  rewrite (Z.mod_small m) by lia.
  change (Z.shiftl 1 63) with (2 ^ 63).
  rewrite <- Z.add_nocarry_lor.
  - replace (m + 2 ^ 63 + 2 ^ 63) with (m + 1 * 2 ^ 64) by lia.
    rewrite Z.mod_add by lia. rewrite Z.mod_small; lia.
  - apply Z.bits_inj'. intros n Hn.
    rewrite Z.land_spec, Z.bits_0, Z.pow2_bits_eqb by lia.
    destruct (Z.eqb_spec 63 n) as [<- | Hne]; [| apply andb_false_r].
    rewrite (prove_Zeq_bitwise.testbit_above (p := 63) (n := m));
      [done | lia ..].
Qed.

Lemma magnitude_bits (m : Z) :
  0 <= m < 2 ^ 63 ->
  Z.testbit m 63 = false /\ Z.land m (Z.ones 63) = m.
Proof.
  intros Hm. split.
  - apply (prove_Zeq_bitwise.testbit_above (p := 63) (n := m)); lia.
  - rewrite Z.land_ones by lia. apply Z.mod_small. lia.
Qed.

Lemma negative_bits (m : Z) :
  0 <= m < 2 ^ 63 ->
  Z.testbit (m - 2 ^ 63) 63 = true /\ Z.land (m - 2 ^ 63) (Z.ones 63) = m.
Proof.
  intros Hm. split.
  - rewrite Z.sub_pow2_spec_top by lia.
    by rewrite (proj1 (magnitude_bits m Hm)).
  - rewrite Z.land_ones by lia.
    replace (m - 2 ^ 63) with (m + (-1) * 2 ^ 63) by lia.
    rewrite Z.mod_add by lia. apply Z.mod_small. lia.
Qed.

Lemma binary_round_aux_sign (sx : bool) (mx ex : Z) (lx : location) :
  let r := binary_round_aux Double.prec Double.emax sx mx ex lx in
  r = S754_zero sx \/ (exists m e, r = S754_finite sx m e)
  \/ r = S754_infinity sx \/ r = S754_nan.
Proof.
  unfold binary_round_aux.
  destruct (shr_fexp Double.prec Double.emax mx ex lx) as [mrs' e'].
  destruct (shr_fexp Double.prec Double.emax _ e' loc_Exact) as [mrs'' e''].
  destruct (shr_m mrs'') as [| m | m]; simpl.
  - by left.
  - destruct (e'' <=? Double.emax - Double.prec);
      [right; left | right; right; left]; eauto.
  - by repeat right.
Qed.

Lemma trunc_round_nonneg (mx ex : Z) (lx : location) :
  0 <= Double.trunc (binary_round_aux Double.prec Double.emax false mx ex lx).
Proof.
  destruct (binary_round_aux_sign false mx ex lx)
    as [-> | [(m & e & ->) | [-> | ->]]]; simpl; try lia.
  apply Z.shiftl_nonneg. lia.
Qed.

Lemma cast_int64_Some (x : double) (v : Z) :
  Double.cast_int64 x = Some v ->
  Double.is_finite x = true /\ v = Double.trunc x /\ - 2 ^ 63 <= v < 2 ^ 63.
Proof.
  unfold Double.cast_int64. destruct (Double.is_finite x); [| done].
  destruct (Z.leb_spec (- 2 ^ 63) (Double.trunc x));
    destruct (Z.ltb_spec (Double.trunc x) (2 ^ 63)); simpl; try done.
  intros [= <-]. auto.
Qed.

Lemma two32_eq : two32 = S754_finite false 4503599627370496 (-20).
Proof. reflexivity. Qed.

Lemma mul_two32_finite (s : bool) (mx : positive) (ex : Z) :
  Double.mul (S754_finite s mx ex) two32
  = binary_round_aux Double.prec Double.emax s
      (Z.pos (mx * 4503599627370496)) (ex + -20) loc_Exact.
Proof.
  rewrite two32_eq. unfold Double.mul, SFmul. by rewrite xorb_false_r.
Qed.

(** What the body of the loop stores for a coefficient whose magnitude
    converts to [int64_t], and for its opposite. *)
Lemma coeff_to_ctm_magnitude (c : double) (m : Z) :
  magnitude c = Some m ->
  0 <= m < 2 ^ 63
  /\ coeff_to_ctm c
     = Some (if Double.ltb c Double.zero then m - 2 ^ 63 else m)
  /\ magnitude (Double.opp c) = Some m
  /\ Double.ltb (Double.opp c) Double.zero
     = negb (Double.is_zero c) && negb (Double.ltb c Double.zero)
  /\ (Double.is_zero c = true -> m = 0).
Proof.
  destruct c as [s | s | | s mx ex].
  - assert (magnitude (S754_zero s) = Some 0) as -> by (by destruct s).
    intros [= <-]. split; [lia |]. by destruct s.
  - done.
  - done.
  - unfold magnitude, coeff_to_ctm.
    cbn [Double.abs SFabs Double.opp SFopp Double.is_zero].
    rewrite !mul_two32_finite.
    assert (Double.ltb (S754_finite s mx ex) Double.zero = s) as ->
      by (by destruct s).
    assert (Double.ltb (S754_finite (negb s) mx ex) Double.zero = negb s)
      as -> by (by destruct s).
    pose proof (trunc_round_nonneg (Z.pos (mx * 4503599627370496))
                  (ex + -20) loc_Exact) as Hnn.
    intros Hm. pose proof (cast_int64_Some _ _ Hm) as (_ & Hv & Hr).
    split; [lia |]. split; [| done].
    destruct s; cbn [negb]; rewrite Hm; [| done].
    simpl. by rewrite sign_bit_set by lia.
Qed.

Lemma magnitude_fits_Some (c : double) :
  magnitude_fits c = true -> exists m, magnitude c = Some m.
Proof.
  unfold magnitude_fits. destruct (magnitude c) as [m |]; [eauto | done].
Qed.

(** [coeffs_to_ctm] returns when every magnitude converts, and stores at
    every index what the body of the loop computes. *)
Lemma coeffs_to_ctm_entries (coeffs : list double) (ctm : _drm_color_ctm) :
  length coeffs = 9%nat ->
  length (matrix ctm) = 9%nat ->
  forallb magnitude_fits coeffs = true ->
  exists ctm', coeffs_to_ctm coeffs ctm = Some ctm'
    /\ length (matrix ctm') = 9%nat
    /\ forall (i : nat) (c : double), coeffs !! i = Some c ->
         exists m, magnitude c = Some m
                   /\ matrix ctm' !! i = coeff_to_ctm c.
Proof.
  intros Hlen Hlen' Hfit.
  assert (Hmag : forall (i : nat) (c : double), coeffs !! i = Some c ->
                   exists m, magnitude c = Some m).
  { intros i c Hc. apply magnitude_fits_Some.
    rewrite forallb_forall in Hfit. apply Hfit.
    apply list_elem_of_In. by eapply list_elem_of_lookup_2. }
  destruct (for_store_Some (fun i => c ← coeffs !! i; coeff_to_ctm c) 9 0
              (matrix ctm)) as (m' & Hrun & Hlen'' & Hlook).
  { intros j Hj. destruct (lookup_lt_is_Some_2 coeffs j) as [c Hc]; [lia |].
    rewrite Hc. simpl. destruct (Hmag j c Hc) as [m Hm].
    apply coeff_to_ctm_magnitude in Hm as (_ & -> & _). eauto. }
  exists {| matrix := m' |}. unfold coeffs_to_ctm. rewrite Hrun. simpl.
  split; [done |]. split; [lia |].
  intros i c Hc. destruct (Hmag i c Hc) as [m Hm]. exists m. split; [done |].
  assert (i < 9)%nat as Hi by (rewrite <- Hlen; by eapply lookup_lt_Some).
  rewrite Hlook by lia.
  destruct (decide (0 <= i < 0 + 9)%nat); [| lia]. by rewrite Hc.
Qed.

Lemma eqb_zero (c : double) :
  Double.eqb c Double.zero = true -> Double.is_zero c = true.
Proof. destruct c as [s | s | | s m e]; try done; by destruct s. Qed.

(** C4: a coefficient that compares equal to zero, negative zero included,
    is stored as the 64-bit pattern with all bits zero. *)
Theorem coeffs_to_ctm_zero (coeffs : list double) (ctm : _drm_color_ctm) :
  length coeffs = 9%nat ->
  length (matrix ctm) = 9%nat ->
  forallb magnitude_fits coeffs = true ->
  exists ctm', coeffs_to_ctm coeffs ctm = Some ctm'
    /\ forall (i : nat) (c : double),
         coeffs !! i = Some c ->
         Double.eqb c Double.zero = true ->
         matrix ctm' !! i = Some 0
         /\ forall n, Z.testbit (to_uint64 0) n = false.
Proof.
  intros Hlen Hlen' Hfit.
  destruct (coeffs_to_ctm_entries coeffs ctm Hlen Hlen' Hfit)
    as (ctm' & Hrun & _ & Hent).
  exists ctm'. split; [done |].
  intros i c Hc Hz. split; [| intros n; apply Z.bits_0].
  destruct (Hent i c Hc) as (m & Hm & ->).
  apply eqb_zero in Hz.
  destruct (coeff_to_ctm_magnitude c m Hm) as (_ & -> & _ & _ & Hm0).
  rewrite (Hm0 Hz). by destruct c.
Qed.

Lemma coeffs_to_ctm_zero_witness :
  exists ctm',
    coeffs_to_ctm
      [S754_zero true; Double.one; S754_zero false; Double.one; Double.one;
       Double.one; Double.one; Double.one; S754_zero true]
      {| matrix := repeat 7 9 |} = Some ctm'
    /\ matrix ctm' !! 0%nat = Some 0
    /\ matrix ctm' !! 2%nat = Some 0
    /\ matrix ctm' !! 8%nat = Some 0.
Proof.
  destruct (coeffs_to_ctm_zero
              [S754_zero true; Double.one; S754_zero false; Double.one;
               Double.one; Double.one; Double.one; Double.one;
               S754_zero true]
              {| matrix := repeat 7 9 |} eq_refl eq_refl eq_refl)
    as (ctm' & Hrun & Hzero).
  exists ctm'. split; [exact Hrun |].
  split; [| split].
  - exact (proj1 (Hzero 0%nat (S754_zero true) eq_refl eq_refl)).
  - exact (proj1 (Hzero 2%nat (S754_zero false) eq_refl eq_refl)).
  - exact (proj1 (Hzero 8%nat (S754_zero true) eq_refl eq_refl)).
Defined.



(** ** Memory *)

Lemma length_store_uint (bo : byte_order) (n : nat) (v : Z) :
  length (store_uint bo n v) = n.
Proof.
  destruct bo; simpl; rewrite ?length_rev; apply length_le_split.
Qed.

Lemma load_store_uint (bo : byte_order) (n : nat) (v : Z) :
  load_uint bo (store_uint bo n v) = v mod 2 ^ (Z.of_nat n * 8).
Proof.
  destruct bo; simpl; rewrite ?rev_involutive; apply le_combine_split.
Qed.

Lemma store_load_uint (bo : byte_order) (bs : list Byte.byte) (n : nat) :
  length bs = n -> store_uint bo n (load_uint bo bs) = bs.
Proof.
  intros <-. destruct bo; simpl.
  - apply split_le_combine.
  - rewrite <- (length_rev bs), split_le_combine. apply rev_involutive.
Qed.

(** The bytes from the [i]-th element on, in an array whose elements take
    [k] bytes each. *)
Lemma flat_map_drop {A : Type} (g : A -> list Byte.byte) (k : nat)
    (l : list A) :
  (forall y, length (g y) = k) ->
  forall (i : nat) (x : A),
    l !! i = Some x ->
    exists rest, drop (k * i) (flat_map g l) = g x ++ rest.
Proof.
  intros Hg. induction l as [| y l IH]; intros i x Hx; [done |].
  destruct i as [| i]; simpl in Hx.
  - injection Hx as ->. rewrite Nat.mul_0_r. simpl. eauto.
  - destruct (IH i x Hx) as [rest Hrest]. exists rest.
    simpl. replace (k * S i)%nat with (k + k * i)%nat by lia.
    by rewrite drop_app_add' by (by rewrite Hg).
Qed.

Lemma length_flat_map_const {A : Type} (g : A -> list Byte.byte) (k : nat)
    (l : list A) :
  (forall y, length (g y) = k) ->
  length (flat_map g l) = (k * length l)%nat.
Proof.
  intros Hg. induction l as [| y l IH]; simpl; [lia |].
  rewrite length_app, Hg, IH. lia.
Qed.

(** The chunks of [k] bytes of a list, put together again. *)
Lemma flat_map_chunks (k : nat) (mem : list Byte.byte) (n : nat) :
  forall j : nat,
    flat_map (fun i => take k (drop (k * i) mem)) (seq j n)
    = take (k * n) (drop (k * j) mem).
Proof.
  induction n as [| n IH]; intros j; simpl.
  - by rewrite Nat.mul_0_r.
  - rewrite IH. replace (k * S j)%nat with (k * j + k)%nat by lia.
    rewrite <- drop_drop, take_take_drop. f_equal. lia.
Qed.

Lemma int64_array_bytes_length (bo : byte_order) (m : list Z) :
  length (int64_array_bytes bo m) = (8 * length m)%nat.
Proof.
  apply length_flat_map_const. intros y. apply length_store_uint.
Qed.

Lemma to_uint64_range (w : Z) : 0 <= to_uint64 w < 2 ^ 64.
Proof. apply Z.mod_pos_bound. lia. Qed.

Lemma to_int64_to_uint64 (w : Z) :
  int64_range w -> to_int64 (to_uint64 w) = w.
Proof.
  unfold int64_range, to_int64, to_uint64. intros Hw.
  rewrite Zplus_mod_idemp_l.
  rewrite Z.mod_small; lia.
Qed.

(** The two 32-bit words that the bytes of a 64-bit value are read as. *)
Lemma load_halves (bo : byte_order) (v : Z) :
  0 <= v < 2 ^ 64 ->
  let bs := store_uint bo 8 v in
  (load_uint bo (take 4 bs), load_uint bo (drop 4 bs))
  = match bo with
    | LittleEndian => (v mod 2 ^ 32, v / 2 ^ 32)
    | BigEndian => (v / 2 ^ 32, v mod 2 ^ 32)
    end.
Proof.
  intros Hv.
  assert (Hlo : le_combine (take 4 (le_split 8 v)) = v mod 2 ^ 32).
  { rewrite le_combine_firstn, le_combine_split.
    change (2 ^ (Z.of_nat 8 * 8)) with (2 ^ 64).
    change (2 ^ (8 * Z.of_nat 4)) with (2 ^ 32).
    rewrite (Z.mod_small v) by lia. done. }
  assert (Hhi : le_combine (drop 4 (le_split 8 v)) = v / 2 ^ 32).
  { rewrite (skipn_le_split 4 8) by lia. rewrite le_combine_split.
    change (Z.of_nat (8 - 4) * 8) with 32. change (8 * Z.of_nat 4) with 32.
    rewrite Z.shiftr_div_pow2 by lia. apply Z.mod_small.
    split; [apply Z.div_pos; lia |].
    apply Z.div_lt_upper_bound; lia. }
  destruct bo; cbv zeta; unfold store_uint, load_uint.
  - by rewrite Hlo, Hhi.
  - rewrite firstn_rev, skipn_rev, !rev_involutive, length_le_split.
    change (8 - 4)%nat with 4%nat. by rewrite Hlo, Hhi.
Qed.

Lemma halves_eq (w : Z) :
  low_half w = to_uint64 w mod 2 ^ 32
  /\ high_half w = to_uint64 w / 2 ^ 32.
Proof.
  unfold low_half, high_half.
  rewrite Z.land_ones, Z.shiftr_div_pow2 by lia. done.
Qed.

Lemma blob_word_to_long (pf : platform) (w : Z) :
  32 <= long_bits pf -> 0 <= w < 2 ^ 32 -> blob_word (to_long pf w) = w.
Proof.
  intros Hb Hw. unfold blob_word, to_long. rewrite Z.land_ones by lia.
  set (b := long_bits pf) in *.
  set (h := 2 ^ (b - 1)).
  pose proof (Z.div_mod (w + h) (2 ^ b) ltac:(lia)) as Hdm.
  replace ((w + h) mod 2 ^ b - h) with (w + (- ((w + h) / 2 ^ b)) * 2 ^ b)
    by lia.
  replace (2 ^ b) with (2 ^ (b - 32) * 2 ^ 32)
    by (rewrite <- Z.pow_add_r by lia; f_equal; lia).
  rewrite Z.mul_assoc, Z.mod_add by lia. apply Z.mod_small. lia.
Qed.

Lemma map_seq_lookup {A : Type} (f : nat -> A) (l : list A) :
  forall k : nat,
    (forall i x, l !! i = Some x -> f (k + i)%nat = x) ->
    map f (seq k (length l)) = l.
Proof.
  induction l as [| y l IH]; intros k Hf; simpl; [done |].
  f_equal.
  - rewrite <- (Hf 0%nat y eq_refl). f_equal. lia.
  - apply IH. intros i x Hx. rewrite <- (Hf (S i) x Hx). f_equal. lia.
Qed.

Lemma flat_map_ext_In {A B : Type} (f g : A -> list B) (l : list A) :
  (forall x, In x l -> f x = g x) -> flat_map f l = flat_map g l.
Proof.
  induction l as [| y l IH]; intros Hfg; simpl; [done |].
  rewrite Hfg by (by left). rewrite IH; [done |].
  intros x Hx. apply Hfg. by right.
Qed.

Lemma flat_map_map {A B C : Type} (f : A -> B) (g : B -> list C)
    (l : list A) :
  flat_map g (map f l) = flat_map (fun x => g (f x)) l.
Proof. induction l as [| y l IH]; simpl; [done | by rewrite IH]. Qed.

Lemma uint32_at_Some (bo : byte_order) (mem : list Byte.byte) (j : nat) :
  (4 * j + 4 <= length mem)%nat ->
  uint32_at bo mem j = Some (load_uint bo (take 4 (drop (4 * j) mem)))
  /\ length (take 4 (drop (4 * j) mem)) = 4%nat.
Proof.
  intros Hj. unfold uint32_at.
  assert (length (take 4 (drop (4 * j) mem)) = 4%nat) as Hlen
    by (rewrite length_take, length_drop; lia).
  by rewrite Hlen.
Qed.

Lemma load_uint32_range (bo : byte_order) (bs : list Byte.byte) :
  length bs = 4%nat -> 0 <= load_uint bo bs < 2 ^ 32.
Proof.
  intros Hlen. destruct bo; simpl.
  - pose proof (le_combine_bound bs) as H. by rewrite Hlen in H.
  - pose proof (le_combine_bound (rev bs)) as H.
    by rewrite length_rev, Hlen in H.
Qed.

(** The words at the indices [2i] and [2i+1] of the bytes of the matrix. *)
Lemma uint32_at_entry (bo : byte_order) (m : list Z) (i : nat) (w : Z) :
  m !! i = Some w ->
  uint32_at bo (int64_array_bytes bo m) (2 * i)
  = Some (match bo with
          | LittleEndian => low_half w
          | BigEndian => high_half w
          end)
  /\ uint32_at bo (int64_array_bytes bo m) (2 * i + 1)
     = Some (match bo with
             | LittleEndian => high_half w
             | BigEndian => low_half w
             end).
Proof.
  intros Hw.
  pose proof (lookup_lt_Some _ _ _ Hw) as Hi.
  pose proof (int64_array_bytes_length bo m) as Hlen.
  destruct (flat_map_drop (fun w => store_uint bo 8 (to_uint64 w)) 8 m
              (fun y => length_store_uint bo 8 _) i w Hw) as [rest Hrest].
  fold (int64_array_bytes bo m) in Hrest.
  pose proof (load_halves bo (to_uint64 w) (to_uint64_range w)) as Hh.
  cbv zeta in Hh. destruct (halves_eq w) as [-> ->].
  set (bs := store_uint bo 8 (to_uint64 w)) in *.
  assert (Hbs : length bs = 8%nat) by apply length_store_uint.
  split.
  - rewrite (proj1 (uint32_at_Some bo (int64_array_bytes bo m) (2 * i)
                     ltac:(lia))).
    replace (4 * (2 * i))%nat with (8 * i)%nat by lia.
    rewrite Hrest, take_app_le by lia.
    destruct bo; apply pair_equal_spec in Hh as [H1 H2]; by rewrite H1.
  - rewrite (proj1 (uint32_at_Some bo (int64_array_bytes bo m) (2 * i + 1)
                     ltac:(lia))).
    replace (4 * (2 * i + 1))%nat with (8 * i + 4)%nat by lia.
    rewrite <- drop_drop, Hrest, drop_app_le by lia.
    rewrite take_app_length' by (rewrite length_drop; lia).
    destruct bo; apply pair_equal_spec in Hh as [H1 H2]; by rewrite H2.
Qed.

Lemma halves_range (w : Z) :
  0 <= low_half w < 2 ^ 32 /\ 0 <= high_half w < 2 ^ 32.
Proof.
  destruct (halves_eq w) as [-> ->]. pose proof (to_uint64_range w).
  split; [apply Z.mod_pos_bound; lia |].
  split; [apply Z.div_pos; lia | apply Z.div_lt_upper_bound; lia].
Qed.

(** The first read of the loop of [set_ctm] is not allowed by the type of
    the matrix: the loop has no defined result. *)
Lemma pack_undefined (pf : platform) (ctm : _drm_color_ctm)
    (padded_ctm : list Z) :
  pack pf ctm padded_ctm = None.
Proof. reflexivity. Qed.

(** [padded_memcpy] on a matrix of 9 entries: the blob has the 18 words
    of the bytes of the matrix, each converted to [long]. *)
Lemma padded_memcpy_words (pf : platform) (ctm : _drm_color_ctm)
    (padded_ctm : list Z) :
  length (matrix ctm) = 9%nat ->
  length padded_ctm = 18%nat ->
  let mem := int64_array_bytes (endianness pf) (matrix ctm) in
  exists blob, padded_memcpy pf ctm padded_ctm = Some blob
    /\ length blob = 18%nat
    /\ forall j : nat, (j < 18)%nat ->
         blob !! j
         = (w ← uint32_at (endianness pf) mem j; Some (to_long pf w)).
Proof.
  intros Hlen Hlen' mem. unfold padded_memcpy. fold mem.
  assert (Hmem : length mem = 72%nat)
    by (unfold mem; rewrite int64_array_bytes_length; lia).
  destruct (for_store_Some
              (fun i => w ← uint32_at (endianness pf) mem i;
                        Some (to_long pf w)) 18 0 padded_ctm)
    as (blob & Hrun & Hlb & Hlook).
  { intros j Hj.
    rewrite (proj1 (uint32_at_Some (endianness pf) mem j ltac:(lia))).
    simpl. eauto. }
  exists blob. split; [done |]. split; [lia |].
  intros j Hj. rewrite Hlook by lia.
  destruct (decide (0 <= j < 0 + 18)%nat); [done | lia].
Qed.

(** C3: the loop of [set_ctm] reads the [int64_t] entries of the matrix
    through a pointer to [uint32_t], which C does not allow: it has no
    defined result, for any matrix. The padded copy that its comment
    describes has one, with what the claim says: for every matrix of 9
    entries it gives 18 words; the words at [2i] and [2i+1] are the two
    32-bit halves of entry [i], the low half first on a little-endian
    platform and the high half first on a big-endian one; and reading the
    words back as 64-bit values in the same order gives the matrix
    again. *)
Theorem pack_type_punned_read (pf : platform) (ctm : _drm_color_ctm)
    (padded_ctm : list Z) :
  32 <= long_bits pf ->
  length (matrix ctm) = 9%nat ->
  Forall int64_range (matrix ctm) ->
  length padded_ctm = 18%nat ->
  pack pf ctm padded_ctm = None
  /\ exists blob, padded_memcpy pf ctm padded_ctm = Some blob
    /\ length blob = 18%nat
    /\ (forall (i : nat) (w : Z),
          matrix ctm !! i = Some w ->
          exists a b,
            blob !! (2 * i)%nat = Some a
            /\ blob !! (2 * i + 1)%nat = Some b
            /\ (blob_word a, blob_word b)
               = match endianness pf with
                 | LittleEndian => (low_half w, high_half w)
                 | BigEndian => (high_half w, low_half w)
                 end)
    /\ unpack pf blob = matrix ctm.
Proof.
  intros Hlong Hlen Hrange Hlen'. split; [apply pack_undefined |].
  destruct (padded_memcpy_words pf ctm padded_ctm Hlen Hlen')
    as (blob & Hrun & Hlb & Hlook).
  cbv zeta in Hlook.
  set (bo := endianness pf) in *.
  set (mem := int64_array_bytes bo (matrix ctm)) in *.
  assert (Hmem : length mem = 72%nat)
    by (unfold mem; rewrite int64_array_bytes_length; lia).
  exists blob. split; [done |]. split; [done |]. split.
  - intros i w Hw. pose proof (lookup_lt_Some _ _ _ Hw) as Hi.
    destruct (uint32_at_entry bo (matrix ctm) i w Hw) as [Ha Hb].
    fold mem in Ha, Hb. destruct (halves_range w) as [Hlo Hhi].
    eexists _, _.
    rewrite !Hlook by lia. rewrite Ha, Hb. simpl.
    split; [done |]. split; [done |].
    destruct bo; by rewrite !blob_word_to_long.
  - set (u := fun j : nat => load_uint bo (take 4 (drop (4 * j) mem))).
    assert (Hblob : blob = map (fun j => to_long pf (u j)) (seq 0 18)).
    { symmetry. rewrite <- Hlb. apply map_seq_lookup.
      intros i x Hx. pose proof (lookup_lt_Some _ _ _ Hx) as Hi.
      rewrite Hlook in Hx by lia.
      rewrite (proj1 (uint32_at_Some bo mem i ltac:(lia))) in Hx.
      simpl in Hx. by injection Hx. }
    assert (Hseq : forall j, In j (seq 0 18) ->
              length (take 4 (drop (4 * j) mem)) = 4%nat).
    { intros j Hj. apply in_seq in Hj.
      apply (uint32_at_Some bo mem j). lia. }
    unfold unpack. fold bo. rewrite Hlb. change (18 / 2)%nat with 9%nat.
    assert (Hbytes : uint32_array_bytes bo (map blob_word blob) = mem).
    { rewrite Hblob, map_map. unfold uint32_array_bytes.
      rewrite flat_map_map.
      rewrite (flat_map_ext_In _
                 (fun j : nat => take 4 (drop (4 * j) mem))).
      - rewrite flat_map_chunks. simpl. apply take_ge. lia.
      - intros j Hj. specialize (Hseq j Hj).
        rewrite blob_word_to_long;
          [| done | by apply load_uint32_range].
        by apply store_load_uint. }
    rewrite Hbytes, <- Hlen. apply map_seq_lookup.
    intros i w Hw. simpl. unfold int64_at.
    destruct (flat_map_drop (fun w => store_uint bo 8 (to_uint64 w)) 8
                (matrix ctm) (fun y => length_store_uint bo 8 _) i w Hw)
      as [rest Hrest].
    fold (int64_array_bytes bo (matrix ctm)) in Hrest. fold mem in Hrest.
    rewrite Hrest, take_app_length' by (by rewrite length_store_uint).
    rewrite load_store_uint. change (2 ^ (Z.of_nat 8 * 8)) with (2 ^ 64).
    rewrite Z.mod_small by apply to_uint64_range.
    apply to_int64_to_uint64.
    by eapply (Forall_lookup_1 int64_range).
Qed.

Lemma pack_type_punned_read_witness :
  pack {| endianness := BigEndian; long_bits := 32 |}
    {| matrix := [4294967296; - 2 ^ 63 + 1431655765; 0; 1; 2; 3; 4; 5;
                  2 ^ 63 - 1] |}
    (repeat 0 18) = None
  /\ exists blob,
       padded_memcpy {| endianness := BigEndian; long_bits := 32 |}
         {| matrix := [4294967296; - 2 ^ 63 + 1431655765; 0; 1; 2; 3; 4; 5;
                       2 ^ 63 - 1] |}
         (repeat 0 18) = Some blob
       /\ length blob = 18%nat
       /\ unpack {| endianness := BigEndian; long_bits := 32 |} blob
          = [4294967296; - 2 ^ 63 + 1431655765; 0; 1; 2; 3; 4; 5;
             2 ^ 63 - 1].
Proof.
  destruct (pack_type_punned_read
              {| endianness := BigEndian; long_bits := 32 |}
              {| matrix := [4294967296; - 2 ^ 63 + 1431655765; 0; 1; 2; 3;
                            4; 5; 2 ^ 63 - 1] |}
              (repeat 0 18))
    as (Hpack & blob & Hrun & Hlb & _ & Hun).
  - simpl. lia.
  - reflexivity.
  - simpl. unfold int64_range. repeat constructor; lia.
  - reflexivity.
  - split; [exact Hpack |].
    exists blob. split; [exact Hrun |]. split; [exact Hlb | exact Hun].
Defined.

(** ** Multiplication by 2^32 is exact *)

Lemma iter_pos_nat {A : Type} (f : A -> A) (p : positive) :
  forall x : A, SpecFloat.iter_pos f p x = Nat.iter (Pos.to_nat p) f x.
Proof.
  induction p as [p IH | p IH |]; intros x; cbn [SpecFloat.iter_pos].
  - rewrite !IH, Pos2Nat.inj_xI, <- Nat.iter_succ_r, <- Nat.iter_add.
    f_equal. lia.
  - rewrite !IH, Pos2Nat.inj_xO, <- Nat.iter_add. f_equal. lia.
  - done.
Qed.

Lemma iter_shr_1_exact (k : nat) (m : positive) :
  Nat.iter k shr_1
    {| shr_m := Z.pos (Nat.iter k xO m); shr_r := false; shr_s := false |}
  = {| shr_m := Z.pos m; shr_r := false; shr_s := false |}.
Proof.
  induction k as [| k IH]; [done |].
  rewrite Nat.iter_succ_r. simpl. exact IH.
Qed.

Lemma digits2_pos_iter_xO (k : nat) (m : positive) :
  Z.pos (digits2_pos (Nat.iter k xO m))
  = Z.pos (digits2_pos m) + Z.of_nat k.
Proof.
  induction k as [| k IH]; simpl Nat.iter; [lia |].
  cbn [digits2_pos]. lia.
Qed.

Lemma pos_iter_xO (k : nat) (m : positive) :
  Z.pos (Nat.iter k xO m) = Z.pos m * 2 ^ Z.of_nat k.
Proof.
  induction k as [| k IH]; simpl Nat.iter.
  - simpl. lia.
  - rewrite Pos2Z.inj_xO, IH, Nat2Z.inj_succ, Z.pow_succ_r by lia. lia.
Qed.

Lemma mul_pow2_52 (m : positive) :
  (m * 4503599627370496)%positive = Nat.iter 52 xO m.
Proof. rewrite Pos.mul_comm. reflexivity. Qed.

(** The product of a binary64 number and 2^32 has the same mantissa, up to
    a shift that is made up in the exponent; nothing is rounded. *)
Lemma mul_two32_exact (s : bool) (mx : positive) (ex : Z) :
  Double.valid (S754_finite s mx ex) = true ->
  ex < 31 ->
  exists (k : nat) (m' : positive),
    Double.mul (S754_finite s mx ex) two32
    = S754_finite s m' (ex + 32 - Z.of_nat k)
    /\ Z.pos m' = Z.pos mx * 2 ^ Z.of_nat k.
Proof.
  intros Hvalid Hex. rewrite mul_two32_finite.
  unfold Double.valid, valid_binary, bounded, canonical_mantissa in Hvalid.
  apply andb_true_iff in Hvalid as [Hcan Hle].
  apply Z.eqb_eq in Hcan. apply Z.leb_le in Hle.
  unfold fexp, emin, Double.prec, Double.emax in Hcan, Hle.
  set (d := Z.pos (digits2_pos mx)) in *.
  assert (Hd : 0 < d) by (unfold d; lia).
  set (e' := Z.max (d + ex - 21) (-1074)).
  set (n := e' - (ex + -20)).
  assert (Hn : 20 <= n <= 52) by (unfold n, e'; lia).
  assert (He' : e' <= 971) by (unfold e'; lia).
  set (k := Z.to_nat (52 - n)).
  exists k, (Nat.iter k xO mx). split; [| apply pos_iter_xO].
  unfold binary_round_aux, shr_fexp.
  rewrite mul_pow2_52. unfold Zdigits2. rewrite digits2_pos_iter_xO.
  fold d. unfold fexp, emin, Double.prec, Double.emax.
  replace (Z.max (d + Z.of_nat 52 + (ex + -20) - 53) (3 - 1024 - 53))
    with e' by (unfold e'; lia).
  fold n. destruct n as [| p | p] eqn:Hp; [lia | | lia].
  unfold shr. rewrite iter_pos_nat. cbn [shr_record_of_loc].
  replace (Nat.iter 52 xO mx) with (Nat.iter (Pos.to_nat p + k) xO mx)
    by (f_equal; unfold k; lia).
  rewrite Nat.iter_add, iter_shr_1_exact.
  cbn [shr_m loc_of_shr_record round_nearest_even shr_record_of_loc].
  rewrite digits2_pos_iter_xO. fold d.
  replace (Z.max (d + Z.of_nat k + (ex + -20 + Z.pos p) - 53) (3 - 1024 - 53)
           - (ex + -20 + Z.pos p)) with 0 by (unfold k, e' in *; lia).
  cbn [shr_m].
  replace (ex + -20 + Z.pos p) with (ex + 32 - Z.of_nat k) by (unfold k; lia).
  destruct (Z.leb_spec (ex + 32 - Z.of_nat k) (1024 - 53)) as [_ | Hgt];
    [done |].
  unfold k, e' in *. lia.
Qed.

Lemma shiftl_scaled (mx : positive) (k : nat) (e : Z) :
  Z.shiftl (Z.pos mx * 2 ^ Z.of_nat k) (e - Z.of_nat k)
  = Z.shiftl (Z.pos mx) e.
Proof.
  rewrite <- Z.shiftl_mul_pow2 by lia. rewrite Z.shiftl_shiftl by lia.
  f_equal. lia.
Qed.

(** The magnitude of a binary64 number below 2^31 is the integral part of
    its product with 2^32, computed without error. *)
Lemma magnitude_finite (s : bool) (mx : positive) (ex : Z) :
  Double.valid (S754_finite s mx ex) = true ->
  ex < 31 ->
  Z.shiftl (Z.pos mx) (ex + 32) < 2 ^ 63 ->
  magnitude (S754_finite s mx ex) = Some (Z.shiftl (Z.pos mx) (ex + 32)).
Proof.
  intros Hvalid Hex Hlt. unfold magnitude. cbn [Double.abs SFabs].
  destruct (mul_two32_exact false mx ex Hvalid Hex) as (k & m' & -> & Hm').
  unfold Double.cast_int64. cbn [Double.is_finite Double.trunc].
  rewrite Hm', shiftl_scaled.
  pose proof (proj2 (Z.shiftl_nonneg (Z.pos mx) (ex + 32)) ltac:(lia)).
  destruct (Z.leb_spec (- 2 ^ 63) (Z.shiftl (Z.pos mx) (ex + 32)));
    [| lia].
  destruct (Z.ltb_spec (Z.shiftl (Z.pos mx) (ex + 32)) (2 ^ 63)); [| lia].
  done.
Qed.

Lemma Qabs_diff_lt (a b : Z) (d1 d2 d : positive) :
  Z.abs (a * Z.pos d2 - b * Z.pos d1) * Z.pos d < Z.pos d1 * Z.pos d2 ->
  (Qabs ((a # d1) - (b # d2)) < 1 # d)%Q.
Proof.
  intros H. unfold Qlt, Qminus, Qplus, Qopp, Qabs.
  cbn [Qnum Qden]. rewrite Pos2Z.inj_mul. lia.
Qed.

(** The integral part of [mx * 2^(32 - p)], against [mx * 2^32]. *)
Lemma shiftl_error (mx p : positive) :
  let M := Z.shiftl (Z.pos mx) (Z.neg p + 32) in
  0 <= Z.pos mx * 2 ^ 32 - M * 2 ^ Z.pos p < 2 ^ Z.pos p.
Proof.
  cbv zeta. assert (HP : 0 < 2 ^ Z.pos p) by (apply Z.pow_pos_nonneg; lia).
  destruct (Z.le_gt_cases (Z.pos p) 32) as [Hle | Hgt].
  - rewrite Z.shiftl_mul_pow2 by lia.
    rewrite <- Z.mul_assoc, <- Z.pow_add_r by lia.
    replace (Z.neg p + 32 + Z.pos p) with 32 by lia. lia.
  - replace (Z.neg p + 32) with (- (Z.pos p - 32)) by lia.
    rewrite Z.shiftl_div_pow2 by lia. rewrite Z.opp_involutive.
    set (D := 2 ^ (Z.pos p - 32)).
    assert (HD : 0 < D) by (apply Z.pow_pos_nonneg; lia).
    assert (HPD : 2 ^ Z.pos p = D * 2 ^ 32).
    { unfold D. rewrite <- Z.pow_add_r by lia. f_equal. lia. }
    rewrite HPD.
    pose proof (Z.div_mod (Z.pos mx) D ltac:(lia)) as Hdm.
    pose proof (Z.mod_pos_bound (Z.pos mx) D HD) as Hmod.
    nia.
Qed.

Lemma to_Q_nonneg_exp (s : bool) (mx : positive) (ex : Z) :
  0 <= ex ->
  Double.to_Q (S754_finite s mx ex)
  = ((if s then Z.neg mx else Z.pos mx) * 2 ^ ex) # 1.
Proof. intros Hex. by destruct ex. Qed.

(** Encoding and decoding a coefficient in the range of the format loses
    less than 2^-32. *)
Lemma decode_error (c : double) :
  fits_Q31_32 c ->
  exists m, magnitude c = Some m
    /\ (Qabs (((if Double.ltb c Double.zero then - m else m) # 2 ^ 32)
              - Double.to_Q c) < 1 # 2 ^ 32)%Q.
Proof.
  intros (Hvalid & Hfin & Hq).
  destruct c as [s | s | | s mx ex]; try done.
  - exists 0. by destruct s.
  - assert (Double.ltb (S754_finite s mx ex) Double.zero = s) as ->
      by (by destruct s).
    set (M := Z.shiftl (Z.pos mx) (ex + 32)).
    assert (Habs : Z.abs (if s then Z.neg mx else Z.pos mx) = Z.pos mx)
      by (by destruct s).
    change (2 ^ 32)%positive with 4294967296%positive.
    destruct (Z.le_gt_cases 0 ex) as [Hex | Hex].
    + rewrite to_Q_nonneg_exp in Hq |- * by done.
      unfold Qlt, Qmult, Qabs, inject_Z in Hq. cbn [Qnum Qden] in Hq.
      rewrite Z.abs_mul, Habs, (Z.abs_eq (2 ^ ex)) in Hq
        by (apply Z.pow_nonneg; lia).
      assert (HM : M = Z.pos mx * 2 ^ ex * 2 ^ 32).
      { unfold M. rewrite Z.shiftl_mul_pow2, Z.pow_add_r by lia. lia. }
      assert (Hlt : ex < 31).
      { destruct (Z.lt_ge_cases ex 31) as [| Hge]; [done |].
        pose proof (Z.pow_le_mono_r 2 31 ex ltac:(lia) Hge). nia. }
      exists M. split; [apply magnitude_finite; [done | done | lia] |].
      apply Qabs_diff_lt. rewrite HM. destruct s; lia.
    + destruct ex as [| q | p]; [lia | lia |].
      cbn [Double.to_Q] in Hq |- *.
      unfold Qlt, Qmult, Qabs, inject_Z in Hq. cbn [Qnum Qden] in Hq.
      rewrite Habs, Pos.mul_1_r, Pos2Z.inj_pow in Hq.
      pose proof (shiftl_error mx p) as Herr. cbv zeta in Herr. fold M in Herr.
      assert (HP : 0 < 2 ^ Z.pos p) by (apply Z.pow_pos_nonneg; lia).
      exists M. split; [apply magnitude_finite; [done | lia | nia] |].
      apply Qabs_diff_lt. rewrite Pos2Z.inj_pow. destruct s; lia.
Qed.

(** C2: for an array of coefficients in the range of the S31.32 format,
    [coeffs_to_ctm] returns, and reading the stored entry back (the
    magnitude of the low 63 bits, negated when bit 63 is set, divided by
    2^32) gives the coefficient with an absolute error below 2^-32. *)
Theorem coeffs_to_ctm_decode (coeffs : list double) (ctm : _drm_color_ctm) :
  length coeffs = 9%nat ->
  length (matrix ctm) = 9%nat ->
  Forall fits_Q31_32 coeffs ->
  exists ctm', coeffs_to_ctm coeffs ctm = Some ctm'
    /\ forall (i : nat) (c : double),
         coeffs !! i = Some c ->
         exists w, matrix ctm' !! i = Some w
           /\ (Qabs (sm_decode w - Double.to_Q c) < 1 # 2 ^ 32)%Q.
Proof.
  intros Hlen Hlen' Hfits.
  assert (Hfit : forallb magnitude_fits coeffs = true).
  { apply forallb_forall. intros c Hc.
    rewrite Forall_forall in Hfits.
    destruct (decode_error c (Hfits c Hc)) as (m & Hm & _).
    unfold magnitude_fits. by rewrite Hm. }
  destruct (coeffs_to_ctm_entries coeffs ctm Hlen Hlen' Hfit)
    as (ctm' & Hrun & _ & Hent).
  exists ctm'. split; [done |].
  intros i c Hc. destruct (Hent i c Hc) as (m0 & _ & ->).
  rewrite Forall_forall in Hfits.
  assert (Hin : In c coeffs)
    by (apply list_elem_of_In; by eapply list_elem_of_lookup_2).
  destruct (decode_error c (Hfits c Hin)) as (m & Hm & Herr).
  destruct (coeff_to_ctm_magnitude c m Hm) as (Hr & -> & _).
  eexists. split; [done |].
  unfold sm_decode.
  destruct (Double.ltb c Double.zero).
  - destruct (negative_bits m Hr) as [-> ->]. exact Herr.
  - destruct (magnitude_bits m Hr) as [-> ->]. exact Herr.
Qed.

Lemma coeffs_to_ctm_decode_witness :
  exists ctm',
    coeffs_to_ctm (repeat (Double.opp (Double.div Double.one Double.three)) 9)
      {| matrix := repeat 0 9 |} = Some ctm'
    /\ exists w, matrix ctm' !! 4%nat = Some w
         /\ (Qabs (sm_decode w
                   - Double.to_Q
                       (Double.opp (Double.div Double.one Double.three)))
             < 1 # 2 ^ 32)%Q.
Proof.
  destruct (coeffs_to_ctm_decode
              (repeat (Double.opp (Double.div Double.one Double.three)) 9)
              {| matrix := repeat 0 9 |} eq_refl eq_refl)
    as (ctm' & Hrun & Hent).
  - repeat constructor.
  - exists ctm'. split; [exact Hrun |].
    exact (Hent 4%nat (Double.opp (Double.div Double.one Double.three))
             eq_refl).
Defined.

(** ** The whole path on the sample service *)

(** Saturation 0.5: the matrix is encoded, and the run ends in the read of
    the loop of [set_ctm], before any call to the service. *)
Example set_ctm_sample_half :
  coeffs_to_ctm (saturation_ctm (Double.div Double.one (Double.of_Z 2)))
    {| matrix := repeat 0 9 |}
  = Some {| matrix := [2863311530; 715827882; 715827882;
                       715827882; 2863311530; 715827882;
                       715827882; 715827882; 2863311530] |}
  /\ run sample_server
       (set_ctm sample_platform 61
          (saturation_ctm (Double.div Double.one (Double.of_Z 2)))
          {| matrix := repeat 0 9 |} (repeat 0 18))
       sample_start
     = (Undefined, []).
Proof. split; vm_compute; reflexivity. Qed.

(** * Further properties *)

(** ** The encoder as a function of the value of the coefficient *)

(** A coefficient in the range of the format has the integral part of
    [abs(c) * 2^32] as its magnitude. *)
Lemma fits_magnitude (s : bool) (mx : positive) (ex : Z) :
  fits_Q31_32 (S754_finite s mx ex) ->
  magnitude (S754_finite s mx ex) = Some (Z.shiftl (Z.pos mx) (ex + 32)).
Proof.
  intros (Hvalid & _ & Hq).
  assert (Habs : Z.abs (if s then Z.neg mx else Z.pos mx) = Z.pos mx)
    by (by destruct s).
  destruct (Z.le_gt_cases 0 ex) as [Hex | Hex].
  - rewrite to_Q_nonneg_exp in Hq by done.
    unfold Qlt, Qmult, Qabs, inject_Z in Hq. cbn [Qnum Qden] in Hq.
    rewrite Z.abs_mul, Habs, (Z.abs_eq (2 ^ ex)) in Hq
      by (apply Z.pow_nonneg; lia).
    assert (HM : Z.shiftl (Z.pos mx) (ex + 32)
                 = Z.pos mx * 2 ^ ex * 2 ^ 32).
    { rewrite Z.shiftl_mul_pow2, Z.pow_add_r by lia. lia. }
    assert (Hlt : ex < 31).
    { destruct (Z.lt_ge_cases ex 31) as [| Hge]; [done |].
      pose proof (Z.pow_le_mono_r 2 31 ex ltac:(lia) Hge). nia. }
    apply magnitude_finite; [done | done | lia].
  - destruct ex as [| q | p]; [lia | lia |].
    cbn [Double.to_Q] in Hq.
    unfold Qlt, Qmult, Qabs, inject_Z in Hq. cbn [Qnum Qden] in Hq.
    rewrite Habs, Pos.mul_1_r, Pos2Z.inj_pow in Hq.
    pose proof (shiftl_error mx p) as Herr. cbv zeta in Herr.
    assert (HP : 0 < 2 ^ Z.pos p) by (apply Z.pow_pos_nonneg; lia).
    apply magnitude_finite; [done | lia | nia].
Qed.

Lemma shiftl_floor (s : bool) (mx : positive) (ex : Z) :
  Z.shiftl (Z.pos mx) (ex + 32)
  = Qfloor (Qabs (Double.to_Q (S754_finite s mx ex)) * inject_Z (2 ^ 32)).
Proof.
  assert (Habs : Z.abs (if s then Z.neg mx else Z.pos mx) = Z.pos mx)
    by (by destruct s).
  destruct (Z.le_gt_cases 0 ex) as [Hex | Hex].
  - rewrite to_Q_nonneg_exp by done.
    unfold Qfloor, Qmult, Qabs, inject_Z. cbn [Qnum Qden].
    rewrite Z.abs_mul, Habs, (Z.abs_eq (2 ^ ex)), Z.div_1_r
      by (apply Z.pow_nonneg; lia).
    rewrite Z.shiftl_mul_pow2, Z.pow_add_r by lia. lia.
  - destruct ex as [| q | p]; [lia | lia |].
    cbn [Double.to_Q]. unfold Qfloor, Qmult, Qabs, inject_Z.
    cbn [Qnum Qden]. rewrite Habs, Pos.mul_1_r, Pos2Z.inj_pow.
    assert (HP : 0 < 2 ^ Z.pos p) by (apply Z.pow_pos_nonneg; lia).
    destruct (Z.le_gt_cases (Z.pos p) 32) as [Hle | Hgt].
    + rewrite Z.shiftl_mul_pow2 by lia.
      replace (2 ^ 32) with (2 ^ (Z.neg p + 32) * 2 ^ Z.pos p)
        by (rewrite <- Z.pow_add_r by lia; f_equal; lia).
      rewrite Z.mul_assoc, Z.div_mul by lia. done.
    + replace (Z.neg p + 32) with (- (Z.pos p - 32)) by lia.
      rewrite Z.shiftl_div_pow2, Z.opp_involutive by lia.
      replace (2 ^ Z.pos p) with (2 ^ (Z.pos p - 32) * 2 ^ 32)
        by (rewrite <- Z.pow_add_r by lia; f_equal; lia).
      rewrite Z.div_mul_cancel_r; [done | |lia].
      apply Z.pow_nonzero; lia.
Qed.

Lemma coeff_to_ctm_floor (c : double) :
  fits_Q31_32 c ->
  let m := Qfloor (Qabs (Double.to_Q c) * inject_Z (2 ^ 32)) in
  0 <= m < 2 ^ 63
  /\ magnitude c = Some m
  /\ coeff_to_ctm c
     = Some (if Double.ltb c Double.zero then m - 2 ^ 63 else m).
Proof.
  intros Hfits. cbv zeta.
  assert (Hm : magnitude c
               = Some (Qfloor (Qabs (Double.to_Q c) * inject_Z (2 ^ 32)))).
  { destruct c as [s | s | | s mx ex].
    - destruct s; vm_compute; reflexivity.
    - by destruct Hfits as (_ & Hfin & _).
    - by destruct Hfits as (_ & Hfin & _).
    - rewrite <- shiftl_floor. by apply fits_magnitude. }
  destruct (coeff_to_ctm_magnitude c _ Hm) as (Hr & Hc & _). done.
Qed.

Lemma coeffs_to_ctm_fits (coeffs : list double) (ctm : _drm_color_ctm) :
  length coeffs = 9%nat ->
  length (matrix ctm) = 9%nat ->
  Forall fits_Q31_32 coeffs ->
  exists ctm', coeffs_to_ctm coeffs ctm = Some ctm'
    /\ length (matrix ctm') = 9%nat
    /\ forall (i : nat) (c : double),
         coeffs !! i = Some c ->
         fits_Q31_32 c /\ matrix ctm' !! i = coeff_to_ctm c.
Proof.
  intros Hlen Hlen' Hfits. rewrite Forall_forall in Hfits.
  assert (Hfit : forallb magnitude_fits coeffs = true).
  { apply forallb_forall. intros c Hc.
    destruct (coeff_to_ctm_floor c (Hfits c Hc)) as (_ & Hm & _).
    unfold magnitude_fits. by rewrite Hm. }
  destruct (coeffs_to_ctm_entries coeffs ctm Hlen Hlen' Hfit)
    as (ctm' & Hrun & Hl & Hent).
  exists ctm'. split; [done |]. split; [done |].
  intros i c Hc. destruct (Hent i c Hc) as (m & _ & Hw).
  split; [| done]. apply Hfits, list_elem_of_In.
  by eapply list_elem_of_lookup_2.
Qed.

(** X1: for coefficients in the range of the format, [coeffs_to_ctm] stores
    the integral part of [abs(c) * 2^32], taken in the rationals, with
    2^63 subtracted (bit 63 set) when [c < 0]: the multiplication by 2^32
    in double arithmetic adds no rounding error. *)
Theorem coeffs_to_ctm_floor (coeffs : list double) (ctm : _drm_color_ctm) :
  length coeffs = 9%nat ->
  length (matrix ctm) = 9%nat ->
  Forall fits_Q31_32 coeffs ->
  exists ctm', coeffs_to_ctm coeffs ctm = Some ctm'
    /\ forall (i : nat) (c : double),
         coeffs !! i = Some c ->
         let m := Qfloor (Qabs (Double.to_Q c) * inject_Z (2 ^ 32)) in
         matrix ctm' !! i
         = Some (if Double.ltb c Double.zero then m - 2 ^ 63 else m).
Proof.
  intros Hlen Hlen' Hfits.
  destruct (coeffs_to_ctm_fits coeffs ctm Hlen Hlen' Hfits)
    as (ctm' & Hrun & _ & Hent).
  exists ctm'. split; [done |].
  intros i c Hc. destruct (Hent i c Hc) as [Hfit ->].
  by destruct (coeff_to_ctm_floor c Hfit) as (_ & _ & ->).
Qed.

Lemma coeffs_to_ctm_floor_witness :
  exists ctm',
    coeffs_to_ctm (repeat (Double.opp (Double.div Double.one Double.three)) 9)
      {| matrix := repeat 0 9 |} = Some ctm'
    /\ matrix ctm' !! 4%nat = Some (1431655765 - 2 ^ 63).
Proof.
  destruct (coeffs_to_ctm_floor
              (repeat (Double.opp (Double.div Double.one Double.three)) 9)
              {| matrix := repeat 0 9 |} eq_refl eq_refl)
    as (ctm' & Hrun & Hent).
  - repeat constructor.
  - exists ctm'. split; [exact Hrun |].
    exact (Hent 4%nat (Double.opp (Double.div Double.one Double.three))
             eq_refl).
Defined.

(** ** Where the encoder is defined *)

(** The product of a binary64 number and 2^32 is exact, or an infinity. *)
Lemma mul_two32_result (s : bool) (mx : positive) (ex : Z) :
  Double.valid (S754_finite s mx ex) = true ->
  exists (k : nat) (m' : positive),
    Z.pos m' = Z.pos mx * 2 ^ Z.of_nat k
    /\ Double.mul (S754_finite s mx ex) two32
       = if ex + 32 - Z.of_nat k <=? 971
         then S754_finite s m' (ex + 32 - Z.of_nat k)
         else S754_infinity s.
Proof.
  intros Hvalid. rewrite mul_two32_finite.
  unfold Double.valid, valid_binary, bounded, canonical_mantissa in Hvalid.
  apply andb_true_iff in Hvalid as [Hcan Hle].
  apply Z.eqb_eq in Hcan. apply Z.leb_le in Hle.
  unfold fexp, emin, Double.prec, Double.emax in Hcan, Hle.
  set (d := Z.pos (digits2_pos mx)) in *.
  assert (Hd : 0 < d) by (unfold d; lia).
  set (e' := Z.max (d + ex - 21) (-1074)).
  set (n := e' - (ex + -20)).
  assert (Hn : 20 <= n <= 52) by (unfold n, e'; lia).
  set (k := Z.to_nat (52 - n)).
  exists k, (Nat.iter k xO mx). split; [apply pos_iter_xO |].
  unfold binary_round_aux, shr_fexp.
  rewrite mul_pow2_52. unfold Zdigits2. rewrite digits2_pos_iter_xO.
  fold d. unfold fexp, emin, Double.prec, Double.emax.
  replace (Z.max (d + Z.of_nat 52 + (ex + -20) - 53) (3 - 1024 - 53))
    with e' by (unfold e'; lia).
  fold n. destruct n as [| p | p] eqn:Hp; [lia | | lia].
  unfold shr. rewrite iter_pos_nat. cbn [shr_record_of_loc].
  replace (Nat.iter 52 xO mx) with (Nat.iter (Pos.to_nat p + k) xO mx)
    by (f_equal; unfold k; lia).
  rewrite Nat.iter_add, iter_shr_1_exact.
  cbn [shr_m loc_of_shr_record round_nearest_even shr_record_of_loc].
  rewrite digits2_pos_iter_xO. fold d.
  replace (Z.max (d + Z.of_nat k + (ex + -20 + Z.pos p) - 53) (3 - 1024 - 53)
           - (ex + -20 + Z.pos p)) with 0 by (unfold k, e' in *; lia).
  cbn [shr_m].
  replace (ex + -20 + Z.pos p) with (ex + 32 - Z.of_nat k) by (unfold k; lia).
  done.
Qed.

(** The magnitude of a binary64 number converts to [int64_t] only when the
    number is below 2^31 in absolute value. *)
Lemma magnitude_Some_range (s : bool) (mx : positive) (ex : Z) (m : Z) :
  Double.valid (S754_finite s mx ex) = true ->
  magnitude (S754_finite s mx ex) = Some m ->
  (Qabs (Double.to_Q (S754_finite s mx ex)) * inject_Z (2 ^ 32)
   < inject_Z (2 ^ 63))%Q.
Proof.
  intros Hvalid Hm. unfold magnitude in Hm. cbn [Double.abs SFabs] in Hm.
  destruct (mul_two32_result false mx ex Hvalid) as (k & m' & Hm' & Hmul).
  rewrite Hmul in Hm.
  destruct (ex + 32 - Z.of_nat k <=? 971); [| done].
  apply cast_int64_Some in Hm as (_ & Hv & Hr).
  cbn [Double.trunc] in Hv. rewrite Hm', shiftl_scaled in Hv.
  assert (Habs : Z.abs (if s then Z.neg mx else Z.pos mx) = Z.pos mx)
    by (by destruct s).
  destruct (Z.le_gt_cases 0 ex) as [Hex | Hex].
  - rewrite to_Q_nonneg_exp by done.
    unfold Qlt, Qmult, Qabs, inject_Z. cbn [Qnum Qden].
    rewrite Z.abs_mul, Habs, (Z.abs_eq (2 ^ ex))
      by (apply Z.pow_nonneg; lia).
    rewrite Z.shiftl_mul_pow2, Z.pow_add_r in Hv by lia. lia.
  - destruct ex as [| q | p]; [lia | lia |].
    cbn [Double.to_Q]. unfold Qlt, Qmult, Qabs, inject_Z. cbn [Qnum Qden].
    rewrite Habs, Pos.mul_1_r, Pos2Z.inj_pow.
    pose proof (shiftl_error mx p) as Herr. cbv zeta in Herr.
    rewrite <- Hv in Herr.
    assert (HP : 0 < 2 ^ Z.pos p) by (apply Z.pow_pos_nonneg; lia).
    nia.
Qed.

Lemma magnitude_fits_iff (c : double) :
  Double.valid c = true ->
  magnitude_fits c = true <-> fits_Q31_32 c.
Proof.
  intros Hvalid. split.
  - intros Hfit. apply magnitude_fits_Some in Hfit as [m Hm].
    destruct c as [s | s | | s mx ex].
    + repeat split.
    + by destruct s.
    + done.
    + repeat split; [done |]. by eapply magnitude_Some_range.
  - intros Hfits. destruct (coeff_to_ctm_floor c Hfits) as (_ & Hm & _).
    unfold magnitude_fits. by rewrite Hm.
Qed.

Lemma coeff_to_ctm_defined (c : double) :
  is_Some (coeff_to_ctm c) <-> magnitude_fits c = true.
Proof.
  split.
  - intros [w Hw]. unfold magnitude_fits, magnitude.
    unfold coeff_to_ctm in Hw.
    destruct c as [s | s | | s mx ex].
    + by destruct s.
    + by destruct s.
    + done.
    + assert (Double.ltb (S754_finite s mx ex) Double.zero = s) as Hlt
        by (by destruct s).
      rewrite Hlt in Hw. cbn [Double.abs SFabs].
      destruct s; cbn [Double.opp SFopp negb] in Hw.
      * destruct (Double.cast_int64
                    (Double.mul (S754_finite false mx ex) two32)); done.
      * by rewrite Hw.
  - intros Hfit. apply magnitude_fits_Some in Hfit as [m Hm].
    destruct (coeff_to_ctm_magnitude c m Hm) as (_ & -> & _). eauto.
Qed.

Lemma for_store_inv {A : Type} (f : nat -> option A) (n : nat) :
  forall (i : nat) (a a' : list A),
    for_store n i f a = Some a' ->
    forall j, (i <= j < i + n)%nat -> is_Some (f j).
Proof.
  induction n as [| n IH]; intros i a a' Hrun j Hj; [lia |].
  simpl in Hrun. destruct (f i) as [v |] eqn:Hv; [| done].
  simpl in Hrun. destruct (decide (j = i)) as [-> | Hne]; [by rewrite Hv |].
  apply (IH (S i) _ _ Hrun). lia.
Qed.

Lemma coeffs_to_ctm_Some_fits (coeffs : list double) (ctm : _drm_color_ctm) :
  length coeffs = 9%nat ->
  forallb Double.valid coeffs = true ->
  is_Some (coeffs_to_ctm coeffs ctm) -> Forall fits_Q31_32 coeffs.
Proof.
  intros Hlen Hvalid [ctm' Hrun]. rewrite forallb_forall in Hvalid.
  unfold coeffs_to_ctm in Hrun.
  destruct (for_store 9 0 _ (matrix ctm)) as [m |] eqn:Hloop; [| done].
  apply Forall_forall. intros c Hc.
  destruct (list_elem_of_lookup_1 coeffs c
              (proj2 (list_elem_of_In coeffs c) Hc)) as [i Hi].
  pose proof (lookup_lt_Some _ _ _ Hi) as Hlt.
  pose proof (for_store_inv _ _ _ _ _ Hloop i ltac:(lia)) as Hsome.
  cbv beta in Hsome. rewrite Hi in Hsome. simpl in Hsome.
  apply magnitude_fits_iff; [by apply Hvalid |].
  by apply coeff_to_ctm_defined.
Qed.

(** X2: for an array of binary64 coefficients, [coeffs_to_ctm] has a
    defined result exactly when every coefficient is finite and below 2^31
    in absolute value; a NaN, an infinity or a larger coefficient makes the
    conversion to [int64_t] undefined. *)
Theorem coeffs_to_ctm_defined (coeffs : list double) (ctm : _drm_color_ctm) :
  length coeffs = 9%nat ->
  length (matrix ctm) = 9%nat ->
  forallb Double.valid coeffs = true ->
  is_Some (coeffs_to_ctm coeffs ctm) <-> Forall fits_Q31_32 coeffs.
Proof.
  intros Hlen Hlen' Hvalid. split.
  - by apply coeffs_to_ctm_Some_fits.
  - intros Hfits.
    destruct (coeffs_to_ctm_fits coeffs ctm Hlen Hlen' Hfits)
      as (ctm' & -> & _). eauto.
Qed.

Lemma coeffs_to_ctm_defined_witness :
  ~ is_Some (coeffs_to_ctm
               (repeat (S754_finite false 4503599627370496 (-21)) 9)
               {| matrix := repeat 0 9 |})
  /\ is_Some (coeffs_to_ctm (repeat Double.one 9)
                {| matrix := repeat 0 9 |}).
Proof.
  split.
  - intros Hsome.
    apply (coeffs_to_ctm_defined
             (repeat (S754_finite false 4503599627370496 (-21)) 9)
             {| matrix := repeat 0 9 |} eq_refl eq_refl eq_refl) in Hsome.
    apply Forall_inv in Hsome. destruct Hsome as (_ & _ & Hq).
    vm_compute in Hq. discriminate.
  - apply (coeffs_to_ctm_defined (repeat Double.one 9)
             {| matrix := repeat 0 9 |} eq_refl eq_refl eq_refl).
    repeat constructor.
Defined.

(** ** Coefficients that the format represents, and those below it *)

Lemma ltb_zero_sign (c : double) (n : Z) :
  (Double.to_Q c == n # 2 ^ 32)%Q ->
  (if Double.ltb c Double.zero then - Z.abs n else Z.abs n) = n.
Proof.
  unfold Qeq. cbn [Qnum Qden]. intros Hq.
  destruct c as [s | s | | s mx ex].
  - simpl in Hq. assert (n = 0) as -> by lia. by destruct s.
  - simpl in Hq. assert (n = 0) as -> by lia. by destruct s.
  - simpl in Hq. assert (n = 0) as -> by lia. done.
  - assert (Double.ltb (S754_finite s mx ex) Double.zero = s) as ->
      by (by destruct s).
    destruct (Z.le_gt_cases 0 ex) as [Hex | Hex].
    + rewrite to_Q_nonneg_exp in Hq by done. cbn [Qnum Qden] in Hq.
      assert (HP : 0 < 2 ^ ex) by (apply Z.pow_pos_nonneg; lia).
      destruct s; nia.
    + destruct ex as [| q | p]; [lia | lia |].
      cbn [Double.to_Q Qnum Qden] in Hq.
      destruct s; nia.
Qed.

(** X3: a coefficient that is a multiple of 2^-32, in the range of the
    format, is stored without loss: reading the stored entry back gives
    the coefficient exactly. *)
Theorem coeffs_to_ctm_decode_exact (coeffs : list double)
    (ctm : _drm_color_ctm) :
  length coeffs = 9%nat ->
  length (matrix ctm) = 9%nat ->
  Forall fits_Q31_32 coeffs ->
  exists ctm', coeffs_to_ctm coeffs ctm = Some ctm'
    /\ forall (i : nat) (c : double) (n : Z),
         coeffs !! i = Some c ->
         (Double.to_Q c == n # 2 ^ 32)%Q ->
         exists w, matrix ctm' !! i = Some w
           /\ (sm_decode w == Double.to_Q c)%Q.
Proof.
  intros Hlen Hlen' Hfits.
  destruct (coeffs_to_ctm_fits coeffs ctm Hlen Hlen' Hfits)
    as (ctm' & Hrun & _ & Hent).
  exists ctm'. split; [done |].
  intros i c n Hc Hq. destruct (Hent i c Hc) as [Hfit ->].
  destruct (coeff_to_ctm_floor c Hfit) as (Hr & _ & ->).
  assert (Hm : Qfloor (Qabs (Double.to_Q c) * inject_Z (2 ^ 32))
               = Z.abs n).
  { rewrite <- (Qfloor_Z (Z.abs n)). apply Qfloor_comp.
    rewrite Hq. unfold Qeq, Qmult, Qabs, inject_Z. cbn [Qnum Qden].
    change (Z.pos (2 ^ 32 * 1)) with (2 ^ 32). lia. }
  rewrite Hm in Hr |- *.
  eexists. split; [done |]. rewrite Hq.
  unfold sm_decode.
  pose proof (ltb_zero_sign c n Hq) as Hsign.
  destruct (Double.ltb c Double.zero).
  - destruct (negative_bits _ Hr) as [-> ->]. by rewrite Hsign.
  - destruct (magnitude_bits _ Hr) as [-> ->]. by rewrite Hsign.
Qed.

Lemma coeffs_to_ctm_decode_exact_witness :
  exists ctm',
    coeffs_to_ctm (repeat (Double.opp Double.three) 9)
      {| matrix := repeat 0 9 |} = Some ctm'
    /\ exists w, matrix ctm' !! 0%nat = Some w
         /\ (sm_decode w == Double.to_Q (Double.opp Double.three))%Q.
Proof.
  destruct (coeffs_to_ctm_decode_exact (repeat (Double.opp Double.three) 9)
              {| matrix := repeat 0 9 |} eq_refl eq_refl)
    as (ctm' & Hrun & Hent).
  - repeat constructor.
  - exists ctm'. split; [exact Hrun |].
    exact (Hent 0%nat (Double.opp Double.three) (- (3 * 2 ^ 32))
             eq_refl eq_refl).
Defined.

Lemma Qfloor_small (q : Q) : (0 <= q)%Q -> (q < 1)%Q -> Qfloor q = 0.
Proof.
  destruct q as [a b]. unfold Qle, Qlt, Qfloor. cbn [Qnum Qden].
  intros H0 H1. apply Z.div_small. lia.
Qed.

(** X4: a negative coefficient smaller than 2^-32 in absolute value is
    stored as the sign bit alone, the value -2^63: the magnitude is
    truncated to zero and the sign is kept. *)
Theorem coeffs_to_ctm_negative_underflow (coeffs : list double)
    (ctm : _drm_color_ctm) :
  length coeffs = 9%nat ->
  length (matrix ctm) = 9%nat ->
  Forall fits_Q31_32 coeffs ->
  exists ctm', coeffs_to_ctm coeffs ctm = Some ctm'
    /\ forall (i : nat) (c : double),
         coeffs !! i = Some c ->
         Double.ltb c Double.zero = true ->
         (Qabs (Double.to_Q c) * inject_Z (2 ^ 32) < 1)%Q ->
         matrix ctm' !! i = Some (- 2 ^ 63).
Proof.
  intros Hlen Hlen' Hfits.
  destruct (coeffs_to_ctm_fits coeffs ctm Hlen Hlen' Hfits)
    as (ctm' & Hrun & _ & Hent).
  exists ctm'. split; [done |].
  intros i c Hc Hneg Hsmall. destruct (Hent i c Hc) as [Hfit ->].
  destruct (coeff_to_ctm_floor c Hfit) as (_ & _ & ->).
  rewrite Hneg, Qfloor_small; [done | | done].
  apply Qmult_le_0_compat; [apply Qabs_nonneg | done].
Qed.

Lemma coeffs_to_ctm_negative_underflow_witness :
  exists ctm',
    coeffs_to_ctm (repeat (S754_finite true 4503599627370496 (-90)) 9)
      {| matrix := repeat 0 9 |} = Some ctm'
    /\ matrix ctm' !! 8%nat = Some (- 2 ^ 63).
Proof.
  destruct (coeffs_to_ctm_negative_underflow
              (repeat (S754_finite true 4503599627370496 (-90)) 9)
              {| matrix := repeat 0 9 |} eq_refl eq_refl)
    as (ctm' & Hrun & Hent).
  - repeat constructor.
  - exists ctm'. split; [exact Hrun |].
    exact (Hent 8%nat (S754_finite true 4503599627370496 (-90))
             eq_refl eq_refl eq_refl).
Defined.

(** ** The calls of [set_output_blob] *)

(** X7: whatever the service answers, the calls of [set_output_blob] are an
    initial part of: the lookup of the atom, which never creates it; the
    query of the property on the output; one change of the property, of
    type [XA_INTEGER], replacing the value; one [XSync]. When the function
    returns, it returns [BadAtom] after the first call, [BadName] after the
    second or [Success] after all four. *)
Theorem set_output_blob_calls (srv : xserver) (s : xstate srv)
    (output : RROutput) (prop_name : string) (blob_data : list Z)
    (blob_bytes : Z) (format : randr_format) :
  exists prop_atom : Atom,
    snd (run srv (set_output_blob output prop_name blob_data blob_bytes
                    format) s)
    `prefix_of`
      [XInternAtom prop_name true;
       XRRQueryOutputProperty output prop_atom;
       XRRChangeOutputProperty output prop_atom XA_INTEGER
         (format_bits format) PropModeReplace blob_data
         (blob_bytes / Z.shiftr (format_bits format) 3);
       XSync false]
    /\ forall r s',
         fst (run srv (set_output_blob output prop_name blob_data
                         blob_bytes format) s) = Returned r s' ->
         let n := length (snd (run srv (set_output_blob output prop_name
                                          blob_data blob_bytes format) s)) in
         (r = BadAtom /\ n = 1%nat) \/ (r = BadName /\ n = 2%nat)
         \/ (r = Success /\ n = 4%nat).
Proof.
  unfold set_output_blob, mbind, X_bind. simpl.
  destruct (xanswer srv (XInternAtom prop_name true) s)
    as [prop_atom s1 | code s1]; simpl.
  2: { exists 0. split; [by eexists | done]. }
  exists prop_atom.
  destruct (prop_atom =? 0); simpl.
  { split; [by eexists |]. intros r s' [= <- <-]. by left. }
  destruct (xanswer srv (XRRQueryOutputProperty output prop_atom) s1)
    as [[prop_info |] s2 | code s2]; simpl.
  - destruct (xanswer srv (XRRChangeOutputProperty output prop_atom
                             XA_INTEGER (format_bits format) PropModeReplace
                             blob_data
                             (blob_bytes / Z.shiftr (format_bits format) 3))
                s2) as [[] s3 | code s3]; simpl.
    + destruct (xanswer srv (XSync false) s3) as [r s4 | code s4]; simpl.
      * split; [by exists [] |]. intros r' s' [= <- <-]. by repeat right.
      * split; [by exists [] | done].
    + split; [by eexists | done].
  - split; [by eexists |]. intros r s' [= <- <-]. right. by left.
  - split; [by eexists | done].
Qed.

(** ** [set_ctm] *)




(** ** The calls of [find_output_by_name] *)

Lemma find_output_loop_calls (srv : xserver) (res : XRRScreenResources)
    (name : string) (outs : list RROutput) :
  forall (s s' : xstate srv) (r : RROutput) (tr : list xcall),
    run srv (find_output_loop res outs name) s = (Returned r s', tr) ->
    exists visited : list (RROutput * XRROutputInfo),
      tr = flat_map (fun v => [XRRGetOutputInfo res (fst v);
                               XRRFreeOutputInfo (snd v)]) visited
      /\ map fst visited `prefix_of` outs
      /\ ((r = 0 /\ map fst visited = outs
           /\ Forall (fun v => info_name (snd v) <> name) visited)
          \/ exists pre oi,
               visited = pre ++ [(r, oi)]
               /\ info_name oi = name
               /\ Forall (fun v => info_name (snd v) <> name) pre).
Proof.
  induction outs as [| o outs IH]; intros s s' r tr Hrun.
  - injection Hrun as <- <- <-. exists []. split; [done |].
    split; [done |]. left. by repeat split.
  - simpl in Hrun. unfold mbind, X_bind in Hrun. simpl in Hrun.
    destruct (xanswer srv (XRRGetOutputInfo res o) s)
      as [[oi |] s1 | code s1]; simpl in Hrun; [| done | done].
    rewrite strcmp_eqb in Hrun.
    destruct (String.eqb_spec name (info_name oi)) as [Heq | Hne];
      simpl in Hrun;
      destruct (xanswer srv (XRRFreeOutputInfo oi) s1) as [[] s2 | code s2];
      simpl in Hrun; try done.
    + injection Hrun as <- <- <-. exists [(o, oi)]. split; [done |].
      split; [by exists outs |]. right. exists [], oi. by repeat split.
    + destruct (run srv (find_output_loop res outs name) s2)
        as [out tr'] eqn:Hrest.
      injection Hrun as -> <-.
      destruct (IH _ _ _ _ Hrest) as (visited & -> & Hpre & Hres).
      exists ((o, oi) :: visited). split; [done |].
      split; [by apply prefix_cons |].
      destruct Hres as [(-> & Hall & Hnames) | (pre & oi' & -> & Hn & Hpren)].
      * left. split; [done |]. split; [simpl; by f_equal |].
        constructor; [simpl; congruence | done].
      * right. exists ((o, oi) :: pre), oi'. split; [done |].
        split; [done |]. constructor; [simpl; congruence | done].
Qed.

(** X11: whatever the service answers, when [find_output_by_name] returns
    it has asked for the information of the outputs of the list in order,
    from the first one, and released each information right after getting
    it, nothing else; it stops at the first output whose name is the
    requested one and returns it, or returns 0 after the whole list. *)
Theorem find_output_by_name_calls (srv : xserver) (res : XRRScreenResources)
    (name : string) (s s' : xstate srv) (r : RROutput) (tr : list xcall) :
  run srv (find_output_by_name res name) s = (Returned r s', tr) ->
  exists visited : list (RROutput * XRROutputInfo),
    tr = flat_map (fun v => [XRRGetOutputInfo res (fst v);
                             XRRFreeOutputInfo (snd v)]) visited
    /\ map fst visited `prefix_of` outputs res
    /\ ((r = 0 /\ map fst visited = outputs res
         /\ Forall (fun v => info_name (snd v) <> name) visited)
        \/ exists pre oi,
             visited = pre ++ [(r, oi)]
             /\ info_name oi = name
             /\ Forall (fun v => info_name (snd v) <> name) pre).
Proof. apply find_output_loop_calls. Qed.

Lemma find_output_by_name_calls_witness :
  exists visited : list (RROutput * XRROutputInfo),
    [XRRGetOutputInfo sample_resources 61;
     XRRFreeOutputInfo {| info_name := "HDMI-A-0" |}]
    = flat_map (fun v => [XRRGetOutputInfo sample_resources (fst v);
                          XRRFreeOutputInfo (snd v)]) visited
    /\ map fst visited `prefix_of` outputs sample_resources
    /\ ((61 = 0 /\ map fst visited = outputs sample_resources
         /\ Forall (fun v => info_name (snd v) <> "HDMI-A-0"%string) visited)
        \/ exists pre oi,
             visited = pre ++ [(61, oi)]
             /\ info_name oi = "HDMI-A-0"%string
             /\ Forall (fun v => info_name (snd v) <> "HDMI-A-0"%string)
                  pre).
Proof.
  apply (find_output_by_name_calls sample_server sample_resources
           "HDMI-A-0" sample_start sample_start 61).
  reflexivity.
Defined.

(** X12: [find_output_by_name] does not test the pointer that
    [XRRGetOutputInfo] returns: when the service has no information for an
    output that the search reaches, the behaviour is undefined. *)
Theorem find_output_by_name_null_info (srv : xserver)
    (names : RROutput -> string) (res : XRRScreenResources) (name : string)
    (pre post : list RROutput) (o : RROutput) (s : xstate srv) :
  outputs res = pre ++ o :: post ->
  (forall o' s0, o' ∈ pre ->
     exists oi, xanswer srv (XRRGetOutputInfo res o') s0 = XReply (Some oi) s0
                /\ info_name oi = names o') ->
  (forall oi s0, xanswer srv (XRRFreeOutputInfo oi) s0 = XReply tt s0) ->
  (forall o', o' ∈ pre -> names o' <> name) ->
  xanswer srv (XRRGetOutputInfo res o) s = XReply None s ->
  fst (run srv (find_output_by_name res name) s) = Undefined.
Proof.
  intros Hout Hinfo Hfree Hnames Hnull. unfold find_output_by_name.
  rewrite Hout. clear Hout.
  induction pre as [| p pre IH]; simpl.
  - unfold mbind, X_bind. simpl. by rewrite Hnull.
  - destruct (Hinfo p s) as (oi & Hoi & Hname); [by left |].
    unfold mbind, X_bind. simpl. rewrite Hoi. simpl.
    rewrite strcmp_eqb, Hname, (proj2 (String.eqb_neq _ _)).
    2: { intros Heq. apply (Hnames p); [by left | done]. }
    simpl. rewrite Hfree. simpl.
    specialize (IH (fun o' s0 Hin =>
                      Hinfo o' s0 (list_elem_of_further _ _ _ Hin))
                   (fun o' Hin =>
                      Hnames o' (list_elem_of_further _ _ _ Hin))).
    by destruct (run srv (find_output_loop res (pre ++ o :: post) name) s).
Qed.

Lemma find_output_by_name_null_info_witness :
  fst (run sample_server
         (find_output_by_name {| outputs := [61; 62; 63] |} "VGA-0")
         sample_start) = Undefined.
Proof.
  apply (find_output_by_name_null_info sample_server sample_name
           {| outputs := [61; 62; 63] |} "VGA-0" [61; 62] [] 63
           sample_start).
  - reflexivity.
  - intros o' s0 Hin.
    apply elem_of_cons in Hin as [-> | Hin]; [by eexists |].
    apply list_elem_of_singleton in Hin as ->. by eexists.
  - reflexivity.
  - intros o' Hin.
    apply elem_of_cons in Hin as [-> | Hin]; [done |].
    by apply list_elem_of_singleton in Hin as ->.
  - reflexivity.
Defined.

(** ** Values that [parse_user_ctm] lets through *)

(** X13: a value that is a NaN or an infinity passes the test of
    [parse_user_ctm], which returns 1 with a matrix that has a NaN in it;
    the behaviour of [coeffs_to_ctm], and with it of [set_ctm], is
    undefined on that matrix. *)
Theorem parse_user_ctm_not_finite (strtod : string -> double) (opt : string)
    (coeffs : list double) (ctm : _drm_color_ctm) :
  length coeffs = 9%nat ->
  strcmp opt "default" <> 0 ->
  Double.is_finite (strtod opt) = false ->
  exists m,
    parse_user_ctm strtod (Some opt) coeffs = (1, m)
    /\ m !! 0%nat = Some S754_nan
    /\ coeffs_to_ctm m ctm = None
    /\ forall pf output padded_ctm,
         set_ctm pf output m ctm padded_ctm = Undef.
Proof.
  intros Hlen Hopt Hfin. exists (saturation_ctm (strtod opt)).
  unfold parse_user_ctm, set_ctm. apply Z.eqb_neq in Hopt. rewrite Hopt.
  rewrite memcpy_all by done.
  destruct (strtod opt) as [s | s | | s mx ex]; try done;
    try destruct s; done.
Qed.

Lemma parse_user_ctm_not_finite_witness :
  exists m,
    parse_user_ctm (fun _ => S754_infinity false) (Some "inf"%string)
      (repeat Double.zero 9) = (1, m)
    /\ m !! 0%nat = Some S754_nan
    /\ coeffs_to_ctm m {| matrix := repeat 0 9 |} = None
    /\ forall pf output padded_ctm,
         set_ctm pf output m {| matrix := repeat 0 9 |} padded_ctm = Undef.
Proof.
  apply (parse_user_ctm_not_finite (fun _ => S754_infinity false) "inf"
           (repeat Double.zero 9) {| matrix := repeat 0 9 |});
    [reflexivity | discriminate | reflexivity].
Defined.

(** ** The short help *)

Lemma c_string_Some (buf cs : list ascii) :
  c_string buf = Some cs ->
  exists rest, buf = cs ++ Ascii.zero :: rest
               /\ Forall (fun c => Ascii.eqb c Ascii.zero = false) cs.
Proof.
  revert cs. induction buf as [| c buf IH]; intros cs Hcs; [done |].
  simpl in Hcs. destruct (Ascii.eqb c Ascii.zero) eqn:Hc.
  - injection Hcs as <-. apply Ascii.eqb_eq in Hc as ->. by exists buf.
  - destruct (c_string buf) as [cs' |]; [| done]. injection Hcs as <-.
    destruct (IH cs' eq_refl) as (rest & -> & Hall).
    exists rest. split; [done |]. by constructor.
Qed.

Lemma c_string_no_nul (buf : list ascii) :
  Forall (fun c => Ascii.eqb c Ascii.zero = false) buf ->
  c_string buf = None.
Proof.
  induction 1 as [| c buf Hc _ IH]; [done |]. simpl. by rewrite Hc, IH.
Qed.

Lemma strncpy_chars_no_nul (cs rest : list ascii) (n : nat) :
  Forall (fun c => Ascii.eqb c Ascii.zero = false) cs ->
  (n <= length cs)%nat ->
  strncpy_chars (cs ++ rest) n = Some (take n cs).
Proof.
  intros Hall. revert n. induction Hall as [| c cs Hc _ IH]; intros n Hn.
  - simpl in Hn. assert (n = 0%nat) as -> by lia. reflexivity.
  - destruct n as [| n]; [reflexivity |]. simpl in Hn |- *.
    rewrite Hc, IH; [done | lia].
Qed.

Lemma first_newline_bound (HELP_STR : list ascii) (n : nat) :
  forall i j : nat,
    first_newline HELP_STR n i = Some j -> (i <= j <= i + n)%nat.
Proof.
  induction n as [| n IH]; intros i j Hj; simpl in Hj.
  - injection Hj as <-. lia.
  - destruct (HELP_STR !! i) as [c |]; [| done]. simpl in Hj.
    destruct (Ascii.eqb c "010").
    + injection Hj as <-. lia.
    + apply IH in Hj. lia.
Qed.

Lemma print_short_help_copy (HELP_STR : list ascii)
    (malloc : nat -> option (list ascii)) :
  (forall n block, malloc n = Some block -> length block = n) ->
  forall l i block,
    strlen HELP_STR = Some l ->
    first_newline HELP_STR (Z.to_nat (Z.of_nat l mod 2 ^ 32)) 0 = Some i ->
    malloc i = Some block ->
    strncpy block HELP_STR i = Some (take i HELP_STR)
    /\ Forall (fun c => Ascii.eqb c Ascii.zero = false) (take i HELP_STR).
Proof.
  intros Hmalloc l i block Hl Hi Hblock. unfold strlen in Hl.
  destruct (c_string HELP_STR) as [cs |] eqn:Hcs; [| done].
  injection Hl as <-.
  destruct (c_string_Some _ _ Hcs) as (rest & -> & Hall).
  apply first_newline_bound in Hi.
  pose proof (Z.mod_pos_bound (Z.of_nat (length cs)) (2 ^ 32) ltac:(lia)).
  pose proof (Z.mod_le (Z.of_nat (length cs)) (2 ^ 32) ltac:(lia)
                ltac:(lia)).
  assert (Hle : (i <= length cs)%nat) by lia.
  unfold strncpy. rewrite (Hmalloc i block Hblock), Nat.leb_refl.
  rewrite strncpy_chars_no_nul by done. simpl.
  rewrite drop_ge by (rewrite (Hmalloc i block Hblock); lia).
  rewrite app_nil_r, take_app_le by done.
  split; [done |]. by apply Forall_take.
Qed.

Lemma print_short_help_undefined (HELP_STR : list ascii)
    (malloc : nat -> option (list ascii)) :
  (forall n block, malloc n = Some block -> length block = n) ->
  print_short_help HELP_STR malloc = None.
Proof.
  intros Hmalloc. unfold print_short_help.
  destruct (strlen HELP_STR) as [l |] eqn:Hl; [| done]. simpl.
  destruct (first_newline HELP_STR _ 0) as [i |] eqn:Hi; [| done]. simpl.
  destruct (malloc i) as [block |] eqn:Hblock; [| done]. simpl.
  destruct (print_short_help_copy HELP_STR malloc Hmalloc l i block Hl
              Hi Hblock) as [-> Hall].
  simpl. by apply c_string_no_nul.
Qed.

(** X14: [print_short_help] copies the characters of the first line of the
    help text into a block of exactly that many bytes, so that no NUL ends
    the copy: the argument of [printf("%s\n", short_help)] is not a string
    within the block, and the behaviour is undefined, whatever the help
    text. *)
Theorem print_short_help_unterminated (HELP_STR : list ascii)
    (malloc : nat -> option (list ascii)) :
  (forall n block, malloc n = Some block -> length block = n) ->
  print_short_help HELP_STR malloc = None
  /\ forall l i block,
       strlen HELP_STR = Some l ->
       first_newline HELP_STR (Z.to_nat (Z.of_nat l mod 2 ^ 32)) 0 = Some i ->
       malloc i = Some block ->
       strncpy block HELP_STR i = Some (take i HELP_STR)
       /\ Forall (fun c => c <> Ascii.zero) (take i HELP_STR).
Proof.
  intros Hmalloc. split; [by apply print_short_help_undefined |].
  intros l i block Hl Hi Hblock.
  destruct (print_short_help_copy HELP_STR malloc Hmalloc l i block Hl Hi
              Hblock) as [Hc Hall].
  split; [done |]. eapply Forall_impl; [| exact Hall].
  intros c Hc0 ->. by rewrite Ascii.eqb_refl in Hc0.
Qed.

Lemma print_short_help_unterminated_witness :
  print_short_help
    ["U"; "s"; "a"; "g"; "e"; "010"; "m"; "o"; "r"; "e"; "000"]%char
    (fun n => Some (repeat "000"%char n)) = None.
Proof.
  apply (print_short_help_unterminated
           ["U"; "s"; "a"; "g"; "e"; "010"; "m"; "o"; "r"; "e"; "000"]%char
           (fun n => Some (repeat "000"%char n))).
  intros n block [= <-]. apply repeat_length.
Defined.

(** ** [main]: the arguments *)

Lemma mrun_then {A B : Type} (env : menv) (p : M A) (f : A -> M B)
    (s : mstate env) :
  mrun env (p ≫= f) s =
    match mrun env p s with
    | (Returned a s', tr) =>
        let '(o, tr') := mrun env (f a) s' in (o, tr ++ tr')
    | (Exited code s', tr) => (Exited code s', tr)
    | (Undefined, tr) => (Undefined, tr)
    end.
Proof.
  revert s. induction p as [r | c k IH |]; intros s; simpl.
  - unfold mbind, M_bind. simpl. by destruct (mrun env (f r) s).
  - unfold mbind, M_bind in *. simpl.
    destruct (manswer env c s) as [a s' | code s']; [| done].
    rewrite IH. destruct (mrun env (k a) s') as [[r s'' | code s'' |] tr];
      try done.
    by destruct (mrun env (f r) s'').
  - done.
Qed.

Lemma mrun_on_display {R : Type} (env : menv) (p : X R) (s : mstate env) :
  mrun env (on_display p) s
  = (fst (run (display_of env) p s),
     map OnDisplay (snd (run (display_of env) p s))).
Proof.
  revert s. induction p as [r | c k IH |]; intros s; simpl; [done | | done].
  destruct (manswer env (OnDisplay c) s) as [a s' | code s']; [| done].
  rewrite IH. by destruct (run (display_of env) (k a) s').
Qed.

Lemma mrun_step {B : Type} (env : menv) (c : mcall) (f : mans c -> M B)
    (s : mstate env) :
  mrun env (step c ≫= f) s =
    match manswer env c s with
    | XError error_code s' => (Exited error_code s', [c])
    | XReply a s' => let '(o, tr) := mrun env (f a) s' in (o, c :: tr)
    end.
Proof. done. Qed.

Lemma mrun_call_print_short_help {B : Type} (env : menv)
    (HELP_STR : list ascii) (malloc : nat -> option (list ascii))
    (p : M B) (s : mstate env) :
  mrun env (_ ← call_print_short_help HELP_STR malloc; p) s
  = match print_short_help HELP_STR malloc with
    | None => (Undefined, [])
    | Some _ => mrun env p s
    end.
Proof.
  unfold call_print_short_help.
  by destruct (print_short_help HELP_STR malloc).
Qed.

Lemma main_options_settings (HELP_STR : list ascii)
    (malloc : nat -> option (list ascii)) (opts : list getopt_result) :
  forallb is_setting opts = true ->
  forall ctm_opt output_name,
    main_options HELP_STR malloc opts ctm_opt output_name
    = Result (inr (last_optarg "c" opts ctm_opt,
                   last_optarg "o" opts output_name)).
Proof.
  induction opts as [| [opt optarg] opts IH]; intros Hall c0 o0; [done |].
  simpl in Hall. apply andb_true_iff in Hall as [Hset Hall].
  unfold is_setting in Hset. simpl in Hset. simpl.
  destruct (Ascii.eqb_spec opt "v") as [-> | _]; [done |].
  destruct (Ascii.eqb_spec opt "c") as [-> | _]; [by rewrite IH |].
  destruct (Ascii.eqb_spec opt "o") as [-> | _]; [by rewrite IH | done].
Qed.

Lemma main_options_other (HELP_STR : list ascii)
    (malloc : nat -> option (list ascii)) (pre post : list getopt_result)
    (opt : ascii) (optarg : option string) :
  forallb is_setting pre = true ->
  is_setting (opt, optarg) = false ->
  forall ctm_opt output_name,
    main_options HELP_STR malloc (pre ++ (opt, optarg) :: post) ctm_opt
      output_name
    = if Ascii.eqb opt "v" then Result (inl 0)
      else if Ascii.eqb opt "h" then _ ← print_help HELP_STR; Result (inl 0)
      else _ ← call_print_short_help HELP_STR malloc; Result (inl 1).
Proof.
  intros Hpre Hopt.
  induction pre as [| [p parg] pre IH]; intros c0 o0.
  - unfold is_setting in Hopt. simpl in Hopt.
    apply orb_false_iff in Hopt as [Hc Ho]. simpl. by rewrite Hc, Ho.
  - simpl in Hpre. apply andb_true_iff in Hpre as [Hset Hpre].
    unfold is_setting in Hset. simpl in Hset. simpl.
    destruct (Ascii.eqb_spec p "v") as [-> | _]; [done |].
    destruct (Ascii.eqb_spec p "c") as [-> | _]; [by apply IH |].
    destruct (Ascii.eqb_spec p "o") as [-> | _]; [by apply IH | done].
Qed.

Lemma forallb_first_false {A : Type} (P : A -> bool) (l : list A) :
  forallb P l = false ->
  exists pre x post,
    l = pre ++ x :: post /\ forallb P pre = true /\ P x = false.
Proof.
  induction l as [| y l IH]; intros Hl; [done |]. simpl in Hl.
  destruct (P y) eqn:Hy.
  - destruct (IH Hl) as (pre & x & post & -> & Hpre & Hx).
    exists (y :: pre), x, post. simpl. by rewrite Hy.
  - by exists [], y, l.
Qed.

(** What [main] is when every option is [-c] or [-o]. *)
Lemma main_settings (pf : platform) (HELP_STR : list ascii)
    (malloc : nat -> option (list ascii)) (strtod : string -> double)
    (opts : list getopt_result) (ctm_coeffs : list double)
    (ctm : _drm_color_ctm) (padded_ctm : list Z) :
  forallb is_setting opts = true ->
  main pf HELP_STR malloc strtod opts ctm_coeffs ctm padded_ctm
  = match last_optarg "o" opts None with
    | None => _ ← call_print_short_help HELP_STR malloc; Result 1
    | Some output_name =>
        if fst (parse_user_ctm strtod (last_optarg "c" opts None)
                  ctm_coeffs) =? 0
        then _ ← call_print_short_help HELP_STR malloc; Result 1
        else main_display pf output_name
               (snd (parse_user_ctm strtod (last_optarg "c" opts None)
                       ctm_coeffs)) ctm padded_ctm
    end.
Proof.
  intros Hall. unfold main. rewrite main_options_settings by done.
  unfold mbind at 1, M_bind at 1. cbn [M_then].
  destruct (last_optarg "o" opts None) as [output_name |]; [| done].
  by destruct (parse_user_ctm strtod (last_optarg "c" opts None) ctm_coeffs).
Qed.

(** What [main] is when an option is not [-c] or [-o]. *)
Lemma main_other (pf : platform) (HELP_STR : list ascii)
    (malloc : nat -> option (list ascii)) (strtod : string -> double)
    (pre post : list getopt_result) (opt : ascii) (optarg : option string)
    (ctm_coeffs : list double) (ctm : _drm_color_ctm)
    (padded_ctm : list Z) :
  forallb is_setting pre = true ->
  is_setting (opt, optarg) = false ->
  main pf HELP_STR malloc strtod (pre ++ (opt, optarg) :: post) ctm_coeffs
    ctm padded_ctm
  = if Ascii.eqb opt "v" then Result 0
    else if Ascii.eqb opt "h" then _ ← print_help HELP_STR; Result 0
    else _ ← call_print_short_help HELP_STR malloc; Result 1.
Proof.
  intros Hpre Hopt. unfold main. rewrite main_options_other by done.
  destruct (Ascii.eqb opt "v"); [done |].
  destruct (Ascii.eqb opt "h").
  - unfold print_help. by destruct (c_string HELP_STR).
  - unfold call_print_short_help.
    by destruct (print_short_help HELP_STR malloc).
Qed.

(** X15: the first option that is not [-c] or [-o] decides: with [-v]
    [main] returns 0, with [-h] it prints the help text and returns 0, and
    with any other option it calls [print_short_help] and returns 1. The
    options after it are not looked at, the options before it have no
    effect, and the display is not opened. *)
Theorem main_first_other_option (pf : platform) (HELP_STR : list ascii)
    (malloc : nat -> option (list ascii)) (strtod : string -> double)
    (pre post : list getopt_result) (opt : ascii) (optarg : option string)
    (ctm_coeffs : list double) (ctm : _drm_color_ctm)
    (padded_ctm : list Z) :
  forallb is_setting pre = true ->
  is_setting (opt, optarg) = false ->
  main pf HELP_STR malloc strtod (pre ++ (opt, optarg) :: post) ctm_coeffs
    ctm padded_ctm
  = if Ascii.eqb opt "v" then Result 0
    else if Ascii.eqb opt "h" then _ ← print_help HELP_STR; Result 0
    else _ ← call_print_short_help HELP_STR malloc; Result 1.
Proof. apply main_other. Qed.

Lemma main_first_other_option_witness :
  main sample_platform sample_help sample_malloc (fun _ => Double.one)
    ([("o"%char, Some "HDMI-A-0"%string)]
     ++ ("v"%char, None) :: [("x"%char, None)])
    (repeat Double.zero 9) {| matrix := repeat 0 9 |} (repeat 0 18)
  = Result 0.
Proof.
  apply (main_first_other_option sample_platform sample_help sample_malloc
           (fun _ => Double.one)
           [("o"%char, Some "HDMI-A-0"%string)] [("x"%char, None)]
           "v"%char None); reflexivity.
Defined.

(** X16: when all options are [-c] and [-o], the arguments of the last
    [-o] and of the last [-c] are the ones that count. Without an output
    name, without a [-c], or with a value that [parse_user_ctm] refuses,
    [main] calls [print_short_help] and returns 1, and the display is not
    opened. *)
Theorem main_arguments (pf : platform) (HELP_STR : list ascii)
    (malloc : nat -> option (list ascii)) (strtod : string -> double)
    (opts : list getopt_result) (ctm_coeffs : list double)
    (ctm : _drm_color_ctm) (padded_ctm : list Z) :
  forallb is_setting opts = true ->
  last_optarg "o" opts None = None
  \/ last_optarg "c" opts None = None
  \/ fst (parse_user_ctm strtod (last_optarg "c" opts None) ctm_coeffs) = 0 ->
  main pf HELP_STR malloc strtod opts ctm_coeffs ctm padded_ctm
  = (_ ← call_print_short_help HELP_STR malloc; Result 1).
Proof.
  intros Hall Hbad. rewrite main_settings by done.
  destruct (last_optarg "o" opts None) as [output_name |]; [| done].
  destruct Hbad as [Hbad | [Hbad | Hbad]]; [done | |].
  - by rewrite Hbad.
  - by rewrite Hbad.
Qed.

Lemma main_arguments_witness :
  main sample_platform sample_help sample_malloc (fun _ => Double.zero)
    [("c"%char, Some "1"%string); ("o"%char, Some "HDMI-A-0"%string);
     ("c"%char, Some "0"%string)]
    (repeat Double.zero 9) {| matrix := repeat 0 9 |} (repeat 0 18)
  = (_ ← call_print_short_help sample_help sample_malloc; Result 1).
Proof.
  apply (main_arguments sample_platform sample_help sample_malloc
           (fun _ => Double.zero)
           [("c"%char, Some "1"%string); ("o"%char, Some "HDMI-A-0"%string);
            ("c"%char, Some "0"%string)]);
    [reflexivity | right; right; reflexivity].
Defined.

(** ** [main]: the display *)

Lemma main_display_returned (env : menv) (pf : platform) (name : string)
    (coeffs : list double) (ctm : _drm_color_ctm) (padded : list Z)
    (s s' : mstate env) (ret : Z) (tr : list mcall) :
  mrun env (main_display pf name coeffs ctm padded) s
  = (Returned ret s', tr) ->
  (ret = 1 /\ tr = [XOpenDisplay None])
  \/ exists d s1 res s2 output s3 trf s4 trs,
       manswer env (XOpenDisplay None) s = XReply (Some d) s1
       /\ manswer env XRRGetScreenResourcesCurrent s1
          = XReply (Some res) s2
       /\ run (display_of env) (find_output_by_name res name) s2
          = (Returned output s3, trf)
       /\ ((output = 0 /\ ret = 1 /\ trs = [])
           \/ (output <> 0
               /\ run (display_of env)
                    (set_ctm pf output coeffs ctm padded) s3
                  = (Returned ret s4, trs)))
       /\ tr = [XOpenDisplay None; XRRGetScreenResourcesCurrent]
               ++ map OnDisplay (trf ++ trs)
               ++ [XRRFreeScreenResources res; XCloseDisplay].
Proof.
  unfold main_display. rewrite (mrun_step env (XOpenDisplay None)).
  destruct (manswer env (XOpenDisplay None) s) as [[d |] s1 | c s1] eqn:Hopen;
    [| intros [= <- <- <-]; by left | done].
  rewrite (mrun_step env XRRGetScreenResourcesCurrent).
  destruct (manswer env XRRGetScreenResourcesCurrent s1)
    as [[res |] s2 | c s2] eqn:Hres; [| done | done].
  rewrite mrun_then, mrun_on_display.
  destruct (@run Z (display_of env) (find_output_by_name res name) s2)
    as [[output s3 | c s3 |] trf] eqn:Hfind; simpl; [| done | done].
  rewrite mrun_then.
  destruct (Z.eqb_spec output 0) as [-> | Hne].
  - simpl.
    destruct (manswer env (XRRFreeScreenResources res) s3) as [[] s4 | c s4];
      [| done].
    destruct (manswer env XCloseDisplay s4) as [z s5 | c s5]; [| done].
    intros [= <- <- <-].
    right. exists d, s1, res, s2, 0, s3, trf, s3, [].
    repeat split; try done; [by left |]. by rewrite app_nil_r.
  - rewrite mrun_on_display.
    destruct (@run Z (display_of env) (set_ctm pf output coeffs ctm padded)
                s3) as [[r s4 | c s4 |] trs] eqn:Hset; simpl;
      [| done | done].
    destruct (manswer env (XRRFreeScreenResources res) s4) as [[] s5 | c s5];
      [| done].
    destruct (manswer env XCloseDisplay s5) as [z s6 | c s6]; [| done].
    intros [= <- <- <-].
    right. exists d, s1, res, s2, output, s3, trf, s4, trs.
    repeat split; try done; [by right |].
    by rewrite map_app, <- !app_assoc.
Qed.

Lemma set_output_blob_returned (srv : xserver) (s s' : xstate srv)
    (output : RROutput) (prop_name : string) (blob_data : list Z)
    (blob_bytes : Z) (format : randr_format) (r : Z) (tr : list xcall) :
  run srv (set_output_blob output prop_name blob_data blob_bytes format) s
  = (Returned r s', tr) ->
  exists prop_atom : Atom,
    (r = BadAtom /\ tr = [XInternAtom prop_name true])
    \/ (r = BadName
        /\ tr = [XInternAtom prop_name true;
                 XRRQueryOutputProperty output prop_atom])
    \/ (r = Success
        /\ tr = [XInternAtom prop_name true;
                 XRRQueryOutputProperty output prop_atom;
                 XRRChangeOutputProperty output prop_atom XA_INTEGER
                   (format_bits format) PropModeReplace blob_data
                   (blob_bytes / Z.shiftr (format_bits format) 3);
                 XSync false]).
Proof.
  unfold set_output_blob, mbind, X_bind. simpl.
  destruct (xanswer srv (XInternAtom prop_name true) s)
    as [prop_atom s1 | code s1]; simpl; [| done].
  destruct (prop_atom =? 0); simpl.
  { intros [= <- <- <-]. exists prop_atom. by left. }
  destruct (xanswer srv (XRRQueryOutputProperty output prop_atom) s1)
    as [[prop_info |] s2 | code s2]; simpl; [| | done].
  - destruct (xanswer srv (XRRChangeOutputProperty output prop_atom
                             XA_INTEGER (format_bits format) PropModeReplace
                             blob_data
                             (blob_bytes / Z.shiftr (format_bits format) 3))
                s2) as [[] s3 | code s3]; simpl; [| done].
    destruct (xanswer srv (XSync false) s3) as [r' s4 | code s4]; simpl;
      [| done].
    intros [= <- <- <-]. exists prop_atom. by repeat right.
  - intros [= <- <- <-]. exists prop_atom. right. by left.
Qed.

Lemma set_ctm_returned (srv : xserver) (pf : platform) (output : RROutput)
    (coeffs : list double) (ctm : _drm_color_ctm) (padded : list Z)
    (s s' : xstate srv) (r : Z) (tr : list xcall) :
  run srv (set_ctm pf output coeffs ctm padded) s = (Returned r s', tr) ->
  exists ctm' blob,
    coeffs_to_ctm coeffs ctm = Some ctm'
    /\ pack pf ctm' padded = Some blob
    /\ run srv (set_output_blob output PROP_CTM blob blob_size
                  FORMAT_32_BIT) s = (Returned r s', tr).
Proof.
  unfold set_ctm.
  destruct (coeffs_to_ctm coeffs ctm) as [ctm' |]; [| done].
  destruct (pack pf ctm' padded) as [blob |] eqn:Hpack; [| done].
  intros Hrun. exists ctm', blob. split; [done |]. split; [done |].
  exact Hrun.
Qed.

(** The ways in which [main] ends, by its options. *)
Lemma main_cases (pf : platform) (HELP_STR : list ascii)
    (malloc : nat -> option (list ascii)) (strtod : string -> double)
    (opts : list getopt_result) (ctm_coeffs : list double)
    (ctm : _drm_color_ctm) (padded_ctm : list Z) :
  main pf HELP_STR malloc strtod opts ctm_coeffs ctm padded_ctm = Result 0
  \/ main pf HELP_STR malloc strtod opts ctm_coeffs ctm padded_ctm = Result 1
  \/ main pf HELP_STR malloc strtod opts ctm_coeffs ctm padded_ctm = Fault
  \/ exists output_name,
       forallb is_setting opts = true
       /\ last_optarg "o" opts None = Some output_name
       /\ fst (parse_user_ctm strtod (last_optarg "c" opts None) ctm_coeffs)
          <> 0
       /\ main pf HELP_STR malloc strtod opts ctm_coeffs ctm padded_ctm
          = main_display pf output_name
              (snd (parse_user_ctm strtod (last_optarg "c" opts None)
                      ctm_coeffs)) ctm padded_ctm.
Proof.
  assert ((_ ← call_print_short_help HELP_STR malloc; Result 1) = Result 1
          \/ (_ ← call_print_short_help HELP_STR malloc; Result 1)
             = @Fault Z) as Husage.
  { unfold call_print_short_help.
    destruct (print_short_help HELP_STR malloc); [by left | by right]. }
  destruct (forallb is_setting opts) eqn:Hall.
  - rewrite main_settings by done.
    destruct (last_optarg "o" opts None) as [output_name |].
    2: { destruct Husage as [-> | ->]; [right; by left |].
         right. right. by left. }
    destruct (Z.eqb_spec (fst (parse_user_ctm strtod
                                 (last_optarg "c" opts None) ctm_coeffs)) 0)
      as [Hz | Hnz].
    { destruct Husage as [-> | ->]; [right; by left |].
      right. right. by left. }
    right. right. right. by exists output_name.
  - apply forallb_first_false in Hall
      as (pre & [opt optarg] & post & -> & Hpre & Hopt).
    rewrite main_other by done.
    destruct (Ascii.eqb opt "v"); [by left |].
    destruct (Ascii.eqb opt "h").
    + unfold print_help.
      destruct (c_string HELP_STR); [by left | right; right; by left].
    + destruct Husage as [-> | ->]; [right; by left | right; right; by left].
Qed.

Lemma parse_user_ctm_changed (strtod : string -> double)
    (ctm_opt : option string) (coeffs : list double) :
  fst (parse_user_ctm strtod ctm_opt coeffs) <> 0 ->
  parse_user_ctm strtod ctm_opt coeffs
  = (1, snd (parse_user_ctm strtod ctm_opt coeffs)).
Proof.
  unfold parse_user_ctm. destruct ctm_opt as [opt |]; [| done].
  destruct (strcmp opt "default" =? 0); [done |].
  by destruct (Double.eqb (strtod opt) Double.zero).
Qed.

(** X17: the exit status and the calls of a run of [main] that returns.
    Without any call the status is 0 ([-v], [-h]) or 1 (a refused command
    line); after the one call of [XOpenDisplay] it is 1, for a display
    that did not open. In every other run that returns, [main] has opened
    the default display, got the screen resources, made calls on the
    display only, released the resources that it got and closed the
    display, in this order, and the status is 0, 1, [BadAtom] or
    [BadName]. *)
Theorem main_returned (env : menv) (pf : platform) (HELP_STR : list ascii)
    (malloc : nat -> option (list ascii)) (strtod : string -> double)
    (opts : list getopt_result) (ctm_coeffs : list double)
    (ctm : _drm_color_ctm) (padded_ctm : list Z)
    (s s' : mstate env) (ret : Z) (tr : list mcall) :
  mrun env (main pf HELP_STR malloc strtod opts ctm_coeffs ctm padded_ctm) s
  = (Returned ret s', tr) ->
  ((ret = 0 \/ ret = 1) /\ tr = [])
  \/ (ret = 1 /\ tr = [XOpenDisplay None])
  \/ exists (res : XRRScreenResources) (mid : list xcall)
        (s1 s2 : mstate env),
       manswer env XRRGetScreenResourcesCurrent s1 = XReply (Some res) s2
       /\ tr = [XOpenDisplay None; XRRGetScreenResourcesCurrent]
               ++ map OnDisplay mid
               ++ [XRRFreeScreenResources res; XCloseDisplay]
       /\ (ret = 0 \/ ret = 1 \/ ret = BadAtom \/ ret = BadName).
Proof.
  intros Hrun.
  destruct (main_cases pf HELP_STR malloc strtod opts ctm_coeffs ctm
              padded_ctm)
    as [Hm | [Hm | [Hm | (name & _ & _ & _ & Hm)]]]; rewrite Hm in Hrun.
  - injection Hrun as <- <- <-. left. split; [by left | done].
  - injection Hrun as <- <- <-. left. split; [by right | done].
  - done.
  - apply main_display_returned in Hrun
      as [[-> ->] | (d & s1 & res & s2 & output & s3 & trf & s4 & trs
                     & _ & Hres & _ & Hset & ->)].
    { right. by left. }
    right. right. exists res, (trf ++ trs), s1, s2.
    split; [done |]. split; [done |].
    destruct Hset as [(_ & -> & _) | (_ & Hset)]; [right; by left |].
    apply set_ctm_returned in Hset as (ctm' & blob & _ & _ & Hblob).
    apply set_output_blob_returned in Hblob
      as (atom & [[-> _] | [[-> _] | [-> _]]]).
    + right. right. by left.
    + by repeat right.
    + by left.
Qed.

Lemma main_returned_witness :
  let tr :=
    [XOpenDisplay None; XRRGetScreenResourcesCurrent;
     OnDisplay (XRRGetOutputInfo sample_resources 61);
     OnDisplay (XRRFreeOutputInfo {| info_name := "HDMI-A-0" |});
     OnDisplay (XRRGetOutputInfo sample_resources 62);
     OnDisplay (XRRFreeOutputInfo {| info_name := "DisplayPort-0" |});
     XRRFreeScreenResources sample_resources; XCloseDisplay] in
  ((1 = 0 \/ 1 = 1) /\ tr = [])
  \/ (1 = 1 /\ tr = [XOpenDisplay None])
  \/ exists (res : XRRScreenResources) (mid : list xcall)
        (s1 s2 : sample_state),
       sample_manswer XRRGetScreenResourcesCurrent s1
       = XReply (Some res) s2
       /\ tr = [XOpenDisplay None; XRRGetScreenResourcesCurrent]
               ++ map OnDisplay mid
               ++ [XRRFreeScreenResources res; XCloseDisplay]
       /\ (1 = 0 \/ 1 = 1 \/ 1 = BadAtom \/ 1 = BadName).
Proof.
  intros tr.
  apply (main_returned sample_env sample_platform sample_help sample_malloc
           (fun _ => Double.one)
           [("o"%char, Some "VGA-0"%string); ("c"%char, Some "1"%string)]
           (repeat Double.zero 9) {| matrix := repeat 0 9 |} (repeat 0 18)
           sample_start sample_start 1 tr).
  vm_compute. reflexivity.
Defined.



(** X19: [main] does not test the pointer that
    [XRRGetScreenResourcesCurrent] returns: when the arguments are
    accepted and the display opens, but the service has no screen
    resources, the behaviour is undefined right after this call, in
    [find_output_by_name], which reads through the pointer. *)
Theorem main_null_resources (env : menv) (pf : platform)
    (HELP_STR : list ascii) (malloc : nat -> option (list ascii))
    (strtod : string -> double) (opts : list getopt_result)
    (ctm_coeffs : list double) (ctm : _drm_color_ctm) (padded_ctm : list Z)
    (s s1 s2 : mstate env) (dpy : Display) :
  forallb is_setting opts = true ->
  is_Some (last_optarg "o" opts None) ->
  fst (parse_user_ctm strtod (last_optarg "c" opts None) ctm_coeffs) <> 0 ->
  manswer env (XOpenDisplay None) s = XReply (Some dpy) s1 ->
  manswer env XRRGetScreenResourcesCurrent s1 = XReply None s2 ->
  mrun env (main pf HELP_STR malloc strtod opts ctm_coeffs ctm padded_ctm) s
  = (Undefined, [XOpenDisplay None; XRRGetScreenResourcesCurrent]).
Proof.
  intros Hall [name Hname] Hparse Hopen Hres.
  rewrite main_settings, Hname by done.
  destruct (Z.eqb_spec (fst (parse_user_ctm strtod
                               (last_optarg "c" opts None) ctm_coeffs)) 0)
    as [? | _]; [done |].
  unfold main_display. rewrite (mrun_step env (XOpenDisplay None)), Hopen.
  by rewrite (mrun_step env XRRGetScreenResourcesCurrent), Hres.
Qed.

Lemma main_null_resources_witness :
  mrun no_screen_env
    (main sample_platform sample_help sample_malloc (fun _ => Double.one)
       [("o"%char, Some "HDMI-A-0"%string); ("c"%char, Some "1"%string)]
       (repeat Double.zero 9) {| matrix := repeat 0 9 |} (repeat 0 18))
    sample_start
  = (Undefined, [XOpenDisplay None; XRRGetScreenResourcesCurrent]).
Proof.
  apply (main_null_resources no_screen_env sample_platform sample_help
           sample_malloc (fun _ => Double.one)
           [("o"%char, Some "HDMI-A-0"%string); ("c"%char, Some "1"%string)]
           (repeat Double.zero 9) {| matrix := repeat 0 9 |} (repeat 0 18)
           sample_start sample_start sample_start tt).
  - reflexivity.
  - by eexists.
  - vm_compute. discriminate.
  - reflexivity.
  - reflexivity.
Defined.

(** X20: on a command line that [main] refuses (an option other than
    [-v], [-h], [-c] and [-o] first among these, or no output name, no
    [-c], or a value that [parse_user_ctm] refuses), the behaviour is
    undefined before any call is made, when [malloc] gives a block of the
    size that is asked for: [main] calls [print_short_help], which
    prints an array that holds no NUL. *)
Theorem main_refused_undefined (env : menv) (pf : platform)
    (HELP_STR : list ascii) (malloc : nat -> option (list ascii))
    (strtod : string -> double) (opts : list getopt_result)
    (ctm_coeffs : list double) (ctm : _drm_color_ctm) (padded_ctm : list Z)
    (s : mstate env) :
  (forall n block, malloc n = Some block -> length block = n) ->
  (exists pre opt optarg post,
     opts = pre ++ (opt, optarg) :: post
     /\ forallb is_setting pre = true
     /\ is_setting (opt, optarg) = false
     /\ opt <> "v"%char /\ opt <> "h"%char)
  \/ (forallb is_setting opts = true
      /\ (last_optarg "o" opts None = None
          \/ last_optarg "c" opts None = None
          \/ fst (parse_user_ctm strtod (last_optarg "c" opts None)
                    ctm_coeffs) = 0)) ->
  mrun env (main pf HELP_STR malloc strtod opts ctm_coeffs ctm padded_ctm) s
  = (Undefined, []).
Proof.
  intros Hmalloc Hrefused.
  assert (main pf HELP_STR malloc strtod opts ctm_coeffs ctm padded_ctm
          = (_ ← call_print_short_help HELP_STR malloc; Result 1)) as ->.
  { destruct Hrefused
      as [(pre & opt & optarg & post & -> & Hpre & Hopt & Hv & Hh)
         | [Hall Hbad]].
    - rewrite main_other by done.
      by rewrite (proj2 (Ascii.eqb_neq _ _) Hv),
        (proj2 (Ascii.eqb_neq _ _) Hh).
    - rewrite main_settings by done.
      destruct (last_optarg "o" opts None) as [output_name |]; [| done].
      destruct Hbad as [Hbad | [Hbad | Hbad]]; [done | |]; by rewrite Hbad. }
  rewrite mrun_call_print_short_help.
  by rewrite print_short_help_undefined.
Qed.

Lemma main_refused_undefined_witness :
  mrun sample_env
    (main sample_platform sample_help sample_malloc (fun _ => Double.one)
       [("c"%char, Some "1"%string)]
       (repeat Double.zero 9) {| matrix := repeat 0 9 |} (repeat 0 18))
    sample_start
  = (Undefined, []).
Proof.
  apply (main_refused_undefined sample_env sample_platform sample_help
           sample_malloc (fun _ => Double.one) [("c"%char, Some "1"%string)]).
  - intros n block [= <-]. apply repeat_length.
  - right. split; [reflexivity | left; reflexivity].
Defined.

(** ** The range of the matrix of [parse_user_ctm] *)

Lemma digits2_pos_log2 (p : positive) :
  Z.pos (digits2_pos p) = Z.log2 (Z.pos p) + 1.
Proof.
  assert (H : forall q, digits2_pos q = Pos.size q).
  { induction q as [q IH | q IH |]; simpl; congruence. }
  rewrite H. destruct p; simpl; lia.
Qed.

Lemma Zdigits2_bounds (m : Z) :
  0 < m -> 2 ^ (Zdigits2 m - 1) <= m < 2 ^ Zdigits2 m.
Proof.
  intros Hm. destruct m as [| p | p]; [lia | | lia].
  unfold Zdigits2. rewrite digits2_pos_log2.
  replace (Z.log2 (Z.pos p) + 1 - 1) with (Z.log2 (Z.pos p)) by lia.
  apply Z.log2_spec. lia.
Qed.

Lemma Zdigits2_unique (m k : Z) :
  2 ^ (k - 1) <= m < 2 ^ k -> 0 < m -> Zdigits2 m = k.
Proof.
  intros Hk Hm. destruct m as [| p | p]; [lia | | lia].
  unfold Zdigits2. rewrite digits2_pos_log2.
  assert (0 < k).
  { destruct (Z.lt_ge_cases 0 k) as [? | Hle]; [done |].
    assert (2 ^ k <= 2 ^ 0) by (apply Z.pow_le_mono_r; lia).
    change (2 ^ 0) with 1 in *. lia. }
  rewrite (Z.log2_unique (Z.pos p) (k - 1)); [lia | lia |].
  replace (Z.succ (k - 1)) with k by lia. done.
Qed.

Lemma shr_m_shr_1 (mrs : shr_record) :
  0 <= shr_m mrs -> shr_m (shr_1 mrs) = shr_m mrs / 2.
Proof.
  destruct mrs as [m r s]. cbn [shr_m]. intros Hm.
  destruct m as [| [p | p |] | p]; cbn [shr_1 shr_m]; try lia.
  - done.
  - apply (Z.div_unique _ _ _ 1); [lia |]. rewrite Pos2Z.inj_xI. lia.
  - apply (Z.div_unique _ _ _ 0); [lia |]. rewrite Pos2Z.inj_xO. lia.
  - done.
Qed.

Lemma shr_m_iter (n : nat) (mrs : shr_record) :
  0 <= shr_m mrs ->
  shr_m (Nat.iter n shr_1 mrs) = shr_m mrs / 2 ^ Z.of_nat n.
Proof.
  intros Hm. induction n as [| n IH].
  - simpl. by rewrite Z.div_1_r.
  - rewrite Nat2Z.inj_succ, Z.pow_succ_r by lia. simpl.
    rewrite shr_m_shr_1, IH.
    + rewrite Z.div_div by lia. f_equal. lia.
    + rewrite IH. apply Z.div_pos; lia.
Qed.

Lemma shr_m_shr_record_of_loc (m : Z) (l : location) :
  shr_m (shr_record_of_loc m l) = m.
Proof. by destruct l as [| []]. Qed.

(** The mantissa and the exponent after [shr_fexp]. *)
Lemma shr_fexp_m (m e : Z) (l : location) :
  0 <= m ->
  let n := Z.max 0 (fexp Double.prec Double.emax (Zdigits2 m + e) - e) in
  exists mrs,
    shr_fexp Double.prec Double.emax m e l = (mrs, e + n)
    /\ shr_m mrs = m / 2 ^ n.
Proof.
  intros Hm n. unfold shr_fexp, shr. subst n.
  destruct (fexp Double.prec Double.emax (Zdigits2 m + e) - e)
    as [| p | p] eqn:Hn.
  - eexists. split; [by rewrite Z.add_0_r |].
    by rewrite shr_m_shr_record_of_loc, Z.div_1_r.
  - eexists. split; [reflexivity |].
    rewrite iter_pos_nat, shr_m_iter
      by (by rewrite shr_m_shr_record_of_loc).
    rewrite shr_m_shr_record_of_loc, positive_nat_Z. f_equal.
  - eexists. split; [by rewrite Z.add_0_r |].
    by rewrite shr_m_shr_record_of_loc, Z.div_1_r.
Qed.

Lemma round_nearest_even_bounds (m : Z) (l : location) :
  m <= round_nearest_even m l <= m + 1.
Proof.
  unfold round_nearest_even. destruct l as [| []]; try lia.
  destruct (Z.even m); lia.
Qed.

Lemma fexp_eq (e : Z) :
  fexp Double.prec Double.emax e = Z.max (e - 53) (-1074).
Proof. reflexivity. Qed.

Lemma Zdigits2_pow2 (w : Z) : 0 <= w -> Zdigits2 (2 ^ w) = w + 1.
Proof.
  intros Hw. apply Zdigits2_unique; [| by apply Z.pow_pos_nonneg].
  replace (w + 1 - 1) with w by lia. split; [lia |].
  apply Z.pow_lt_mono_r; lia.
Qed.

(** The mantissa after the first shift of [binary_round_aux]: none is left,
    at the smallest exponent, or [w] digits with [1 <= w <= 53]. *)
Lemma shifted_mantissa (mx ex : Z) :
  0 <= mx ->
  ex <= Z.max (Zdigits2 mx + ex - 53) (-1074) ->
  let e' := Z.max (Zdigits2 mx + ex - 53) (-1074) in
  let w := Zdigits2 mx + ex - e' in
  (mx / 2 ^ (e' - ex) = 0 /\ e' = -1074 /\ w <= 0)
  \/ (1 <= w <= 53
      /\ 2 ^ (w - 1) <= mx / 2 ^ (e' - ex) < 2 ^ w).
Proof.
  intros Hmx Hex e' w.
  assert (0 < 2 ^ (e' - ex)) as Hpos by (apply Z.pow_pos_nonneg; lia).
  destruct (Z.eq_dec mx 0) as [-> | Hne].
  { left. change (Zdigits2 0) with 0 in *. rewrite Z.div_0_l by lia. lia. }
  pose proof (Zdigits2_bounds mx ltac:(lia)) as [Hlo Hhi].
  destruct (Z.le_gt_cases w 0) as [Hw | Hw].
  - left. split; [| lia]. apply Z.div_small. split; [lia |].
    eapply Z.lt_le_trans; [exact Hhi |]. apply Z.pow_le_mono_r; lia.
  - right. split; [lia |]. split.
    + apply Z.div_le_lower_bound; [lia |]. rewrite <- Z.pow_add_r by lia.
      replace (e' - ex + (w - 1)) with (Zdigits2 mx - 1) by lia. done.
    + apply Z.div_lt_upper_bound; [lia |]. rewrite <- Z.pow_add_r by lia.
      replace (e' - ex + w) with (Zdigits2 mx) by lia. done.
Qed.

Lemma round_arith (mx ex m2 : Z) :
  0 <= mx ->
  ex <= Z.max (Zdigits2 mx + ex - 53) (-1074) ->
  Zdigits2 mx + ex <= 1023 ->
  let e' := Z.max (Zdigits2 mx + ex - 53) (-1074) in
  mx / 2 ^ (e' - ex) <= m2 <= mx / 2 ^ (e' - ex) + 1 ->
  let n2 := Z.max 0 (Z.max (Zdigits2 m2 + e' - 53) (-1074) - e') in
  0 <= m2 / 2 ^ n2
  /\ (0 < m2 / 2 ^ n2 ->
      e' + n2 <= 971
      /\ Z.max (Zdigits2 (m2 / 2 ^ n2) + (e' + n2) - 53) (-1074) = e' + n2
      /\ Zdigits2 (m2 / 2 ^ n2) + (e' + n2)
         <= Z.max (Zdigits2 mx + ex) (-1074) + 1).
Proof.
  intros Hmx Hex Hmax e' Hm2 n2.
  destruct (shifted_mantissa mx ex Hmx Hex) as [(Hm1 & He' & Hw) | (Hw & Hm1)];
    fold e' in Hm1, Hw |- *.
  - (* nothing is left of the mantissa *)
    fold e' in He'. rewrite Hm1 in Hm2.
    assert (m2 = 0 \/ m2 = 1) as [-> | ->] by lia.
    + subst n2. change (Zdigits2 0) with 0.
      replace (Z.max 0 (Z.max (0 + e' - 53) (-1074) - e')) with 0 by lia.
      change (0 / 2 ^ 0) with 0. lia.
    + subst n2. change (Zdigits2 1) with 1.
      replace (Z.max 0 (Z.max (1 + e' - 53) (-1074) - e')) with 0 by lia.
      change (1 / 2 ^ 0) with 1. change (Zdigits2 1) with 1. lia.
  - set (w := Zdigits2 mx + ex - e') in *.
    assert (0 < 2 ^ (w - 1)) by (apply Z.pow_pos_nonneg; lia).
    assert (2 ^ w = 2 * 2 ^ (w - 1)) as Hpow.
    { rewrite <- Z.pow_succ_r by lia. f_equal. lia. }
    destruct (Z.eq_dec m2 (2 ^ w)) as [Hcarry | Hno].
    + (* the rounding carries into the next power of two *)
      assert (Zdigits2 m2 = w + 1) as Hd
        by (rewrite Hcarry; apply Zdigits2_pow2; lia).
      subst n2. rewrite Hd.
      destruct (Z.le_gt_cases (-1074) (Zdigits2 mx + ex - 53)) as [Hn | Hs].
      * assert (w = 53) as Hw53 by lia.
        replace (Z.max 0 (Z.max (w + 1 + e' - 53) (-1074) - e')) with 1
          by lia.
        rewrite Hcarry, Hw53. change (2 ^ 53 / 2 ^ 1) with (2 ^ 52).
        change (Zdigits2 (2 ^ 52)) with 53. lia.
      * replace (Z.max 0 (Z.max (w + 1 + e' - 53) (-1074) - e')) with 0
          by lia.
        rewrite Z.div_1_r, Hd. lia.
    + assert (Zdigits2 m2 = w) as Hd by (apply Zdigits2_unique; lia).
      subst n2. rewrite Hd.
      replace (Z.max 0 (Z.max (w + e' - 53) (-1074) - e')) with 0 by lia.
      rewrite Z.div_1_r, Hd. lia.
Qed.

(** The result of a rounding: a zero, or a binary64 number that has at
    most one binary digit more before the point than the rounded number
    (or than the smallest subnormal number); no overflow below 2^1023. *)
Lemma binary_round_aux_bound (sx : bool) (mx ex : Z) (lx : location) :
  0 <= mx ->
  ex <= fexp Double.prec Double.emax (Zdigits2 mx + ex) ->
  Zdigits2 mx + ex <= 1023 ->
  match binary_round_aux Double.prec Double.emax sx mx ex lx with
  | S754_zero s => s = sx
  | S754_finite s m e =>
      s = sx /\ bounded Double.prec Double.emax m e = true
      /\ Z.pos (digits2_pos m) + e <= Z.max (Zdigits2 mx + ex) (-1074) + 1
  | _ => False
  end.
Proof.
  intros Hmx Hex Hmax. rewrite fexp_eq in Hex. unfold binary_round_aux.
  destruct (shr_fexp_m mx ex lx Hmx) as (mrs' & -> & Hm1).
  rewrite fexp_eq in Hm1 |- *.
  replace (ex + Z.max 0 (Z.max (Zdigits2 mx + ex - 53) (-1074) - ex))
    with (Z.max (Zdigits2 mx + ex - 53) (-1074)) by lia.
  replace (Z.max 0 (Z.max (Zdigits2 mx + ex - 53) (-1074) - ex))
    with (Z.max (Zdigits2 mx + ex - 53) (-1074) - ex) in Hm1 by lia.
  cbv beta iota zeta.
  pose proof (round_nearest_even_bounds (shr_m mrs') (loc_of_shr_record mrs'))
    as Hround.
  set (m2 := round_nearest_even (shr_m mrs') (loc_of_shr_record mrs')) in *.
  rewrite Hm1 in Hround.
  assert (0 <= m2) as Hm2.
  { assert (0 <= mx / 2 ^ (Z.max (Zdigits2 mx + ex - 53) (-1074) - ex))
      by (apply Z.div_pos; [lia | apply Z.pow_pos_nonneg; lia]).
    lia. }
  destruct (shr_fexp_m m2 (Z.max (Zdigits2 mx + ex - 53) (-1074)) loc_Exact
              Hm2) as (mrs'' & -> & Hm'').
  rewrite fexp_eq in Hm'' |- *. cbv beta iota zeta. rewrite Hm''.
  destruct (round_arith mx ex m2 Hmx Hex Hmax Hround) as [Hnonneg Hpos].
  destruct (m2 / 2 ^ _) as [| m | m] eqn:Hm; [done | | lia].
  destruct (Hpos ltac:(lia)) as (Hle & Hcanon & Hdigits).
  change (Double.emax - Double.prec) with 971.
  rewrite (proj2 (Z.leb_le _ _) Hle).
  split; [done |]. split; [| exact Hdigits].
  unfold bounded, canonical_mantissa. rewrite fexp_eq.
  change (Double.emax - Double.prec) with 971.
  apply andb_true_iff. split; [by apply Z.eqb_eq | by apply Z.leb_le].
Qed.

Lemma shl_align_spec (mx : positive) (ex ez : Z) :
  let '(mz, e) := shl_align mx ex ez in
  e = Z.min ex ez
  /\ Z.pos mz = Z.pos mx * 2 ^ (ex - e)
  /\ Z.pos (digits2_pos mz) + e = Z.pos (digits2_pos mx) + ex.
Proof.
  unfold shl_align. destruct (ez - ex) as [| d | d] eqn:Hd.
  - replace (ex - ex) with 0 by lia. lia.
  - replace (ex - ex) with 0 by lia. lia.
  - cbv beta iota zeta.
    rewrite Pos2Nat.inj_iter.
    change (nat_rect _ mx (fun _ => xO) (Pos.to_nat d))
      with (Nat.iter (Pos.to_nat d) xO mx).
    rewrite pos_iter_xO, digits2_pos_iter_xO, positive_nat_Z.
    replace (Z.min ex ez) with ez by lia.
    replace (ex - ez) with (Z.pos d) by lia. lia.
Qed.

Lemma below_le (k k' : Z) (x : double) : k <= k' -> below k x -> below k' x.
Proof.
  intros Hk. destruct x as [| | | s m e]; cbn [below]; [done .. |].
  intros [Hb Hd]. split; [done | lia].
Qed.

Lemma binary_round_below (sx : bool) (mx : positive) (ex k : Z) :
  Z.pos (digits2_pos mx) + ex <= k -> -1074 <= k -> k <= 1023 ->
  below (k + 1) (binary_round Double.prec Double.emax sx mx ex).
Proof.
  intros Hk Hlo Hhi. unfold binary_round.
  pose proof (shl_align_spec mx ex
                (fexp Double.prec Double.emax (Z.pos (digits2_pos mx) + ex)))
    as Hal.
  destruct (shl_align mx ex _) as [mz ez]. destruct Hal as (He & _ & Hd).
  pose proof (binary_round_aux_bound sx (Z.pos mz) ez loc_Exact) as Hr.
  cbn [Zdigits2] in Hr. rewrite Hd in Hr.
  specialize (Hr ltac:(lia) ltac:(lia) ltac:(lia)).
  destruct (binary_round_aux _ _ sx (Z.pos mz) ez loc_Exact)
    as [| | | s m e]; cbn [below]; [done .. |].
  destruct Hr as (_ & Hb & Hm). split; [done | lia].
Qed.

Lemma binary_normalize_below (m e k : Z) (szero : bool) :
  Z.abs m < 2 ^ (k - e) -> -1074 <= k -> k <= 1023 ->
  below (k + 1) (binary_normalize Double.prec Double.emax m e szero).
Proof.
  intros Hm Hlo Hhi.
  assert (forall p : positive, Z.pos p < 2 ^ (k - e) ->
            Z.pos (digits2_pos p) + e <= k) as Hdigits.
  { intros p Hp.
    pose proof (Zdigits2_bounds (Z.pos p) ltac:(lia)) as [Hd _].
    cbn [Zdigits2] in Hd.
    destruct (Z.le_gt_cases (Z.pos (digits2_pos p)) (k - e)) as [? | Hgt];
      [lia |].
    assert (2 ^ (k - e) <= 2 ^ (Z.pos (digits2_pos p) - 1))
      by (apply Z.pow_le_mono_r; lia).
    lia. }
  destruct m as [| p | p]; cbn [binary_normalize].
  - done.
  - apply binary_round_below; [apply Hdigits |..]; lia.
  - apply binary_round_below; [apply Hdigits |..]; lia.
Qed.

Lemma aligned_below (s : bool) (m : positive) (e ez k : Z) :
  ez <= e ->
  Z.pos (digits2_pos m) + e <= k ->
  Z.abs (cond_Zopp s (Z.pos (fst (shl_align m e ez)))) < 2 ^ (k - ez).
Proof.
  intros Hez Hk. pose proof (shl_align_spec m e ez) as Hal.
  destruct (shl_align m e ez) as [mz e0]. destruct Hal as (He0 & _ & Hd).
  cbn [fst].
  assert (Z.abs (cond_Zopp s (Z.pos mz)) = Z.pos mz) as -> by (by destruct s).
  pose proof (Zdigits2_bounds (Z.pos mz) ltac:(lia)) as [_ Hhi].
  cbn [Zdigits2] in Hhi.
  eapply Z.lt_le_trans; [exact Hhi |]. apply Z.pow_le_mono_r; lia.
Qed.

Lemma pow2_double (j : Z) : 0 <= j -> 2 ^ (j + 1) = 2 * 2 ^ j.
Proof. intros Hj. by rewrite Z.pow_add_r, Z.mul_comm. Qed.

Lemma add_below (x y : double) (k : Z) :
  below k x -> below k y -> -1074 <= k -> k + 1 <= 1023 ->
  below (k + 2) (Double.add x y).
Proof.
  intros Hx Hy Hlo Hhi.
  destruct x as [sx | sx | | sx mx ex], y as [sy | sy | | sy my ey];
    try done.
  - by destruct sx, sy.
  - apply (below_le k); [lia | done].
  - apply (below_le k); [lia | done].
  - destruct Hx as [_ Hx], Hy as [_ Hy].
    unfold Double.add, SFadd.
    pose proof (aligned_below sx mx ex (Z.min ex ey) k ltac:(lia) Hx) as Ha.
    pose proof (aligned_below sy my ey (Z.min ex ey) k ltac:(lia) Hy) as Hb.
    replace (k + 2) with (k + 1 + 1) by lia.
    apply binary_normalize_below; [| lia | lia].
    replace (k + 1 - Z.min ex ey) with (k - Z.min ex ey + 1) by lia.
    rewrite pow2_double
      by (pose proof (Zdigits2_bounds (Z.pos mx) ltac:(lia)); lia).
    set (a := cond_Zopp sx _) in *. set (b := cond_Zopp sy _) in *.
    change (Z.abs (a + b) < 2 * 2 ^ (k - Z.min ex ey)). lia.
Qed.

Lemma sub_below (x y : double) (k : Z) :
  below k x -> below k y -> -1074 <= k -> k + 1 <= 1023 ->
  below (k + 2) (Double.sub x y).
Proof.
  intros Hx Hy Hlo Hhi.
  destruct x as [sx | sx | | sx mx ex], y as [sy | sy | | sy my ey];
    try done.
  - by destruct sx, sy.
  - apply (below_le k); [lia | done].
  - apply (below_le k); [lia | done].
  - destruct Hx as [_ Hx], Hy as [_ Hy].
    unfold Double.sub, SFsub.
    pose proof (aligned_below sx mx ex (Z.min ex ey) k ltac:(lia) Hx) as Ha.
    pose proof (aligned_below sy my ey (Z.min ex ey) k ltac:(lia) Hy) as Hb.
    replace (k + 2) with (k + 1 + 1) by lia.
    apply binary_normalize_below; [| lia | lia].
    replace (k + 1 - Z.min ex ey) with (k - Z.min ex ey + 1) by lia.
    rewrite pow2_double
      by (pose proof (Zdigits2_bounds (Z.pos mx) ltac:(lia)); lia).
    set (a := cond_Zopp sx _) in *. set (b := cond_Zopp sy _) in *.
    change (Z.abs (a - b) < 2 * 2 ^ (k - Z.min ex ey)). lia.
Qed.

Lemma SFdiv_core_binary_spec (m1 e1 m2 e2 : Z) :
  let e' := Z.min (Z.max (Zdigits2 m1 + e1 - (Zdigits2 m2 + e2) - 53) (-1074))
              (e1 - e2) in
  exists l : location,
    SFdiv_core_binary Double.prec Double.emax m1 e1 m2 e2
    = (m1 * 2 ^ (e1 - e2 - e') / m2, e', l).
Proof.
  intros e'. unfold SFdiv_core_binary. rewrite fexp_eq.
  change (IntDef.Z.min ?a ?b) with (Z.min a b). fold e'. cbv zeta.
  assert (0 <= e1 - e2 - e') as Hs by lia.
  assert (match e1 - e2 - e' with
          | 0 => m1
          | Z.pos _ => IntDef.Z.shiftl m1 (e1 - e2 - e')
          | Z.neg _ => 0
          end = m1 * 2 ^ (e1 - e2 - e')) as ->.
  { destruct (e1 - e2 - e') as [| p | p] eqn:Hse; [lia | | lia].
    change (IntDef.Z.shiftl m1 (Z.pos p)) with (Z.shiftl m1 (Z.pos p)).
    apply Z.shiftl_mul_pow2. lia. }
  change (IntDef.Z.div_eucl ?a ?b) with (Z.div_eucl a b).
  unfold Z.div.
  destruct (Z.div_eucl (m1 * 2 ^ (e1 - e2 - e')) m2) as [q r].
  by eexists.
Qed.

Lemma div_arith (m1 m2 s : Z) :
  0 < m1 -> 0 < m2 -> 0 <= s ->
  let q := m1 * 2 ^ s / m2 in
  0 <= q
  /\ (q = 0 -> Zdigits2 m1 + s <= Zdigits2 m2)
  /\ (0 < q ->
      Zdigits2 m1 + s - Zdigits2 m2 <= Zdigits2 q
      <= Zdigits2 m1 + s - Zdigits2 m2 + 1).
Proof.
  intros Hm1 Hm2 Hs q.
  pose proof (Zdigits2_bounds m1 Hm1) as [Hlo1 Hhi1].
  pose proof (Zdigits2_bounds m2 Hm2) as [Hlo2 Hhi2].
  set (d1 := Zdigits2 m1) in *. set (d2 := Zdigits2 m2) in *.
  assert (1 <= d1) as Hd1.
  { destruct (Z.le_gt_cases 1 d1) as [? | Hd]; [done |].
    assert (2 ^ d1 <= 2 ^ 0) by (apply Z.pow_le_mono_r; lia).
    change (2 ^ 0) with 1 in *. lia. }
  assert (1 <= d2) as Hd2.
  { destruct (Z.le_gt_cases 1 d2) as [? | Hd]; [done |].
    assert (2 ^ d2 <= 2 ^ 0) by (apply Z.pow_le_mono_r; lia).
    change (2 ^ 0) with 1 in *. lia. }
  assert (0 < 2 ^ s) as Hps by (apply Z.pow_pos_nonneg; lia).
  assert (2 ^ (d1 + s - 1) <= m1 * 2 ^ s < 2 ^ (d1 + s)) as [Hlo Hhi].
  { replace (d1 + s - 1) with (d1 - 1 + s) by lia.
    rewrite !Z.pow_add_r by lia. nia. }
  assert (0 <= q) as Hq by (apply Z.div_pos; nia).
  assert (m2 * q <= m1 * 2 ^ s) as Hmul by (apply Z.mul_div_le; lia).
  split; [done |]. split.
  - intros Hq0. apply Z.div_small_iff in Hq0 as [Hsmall | ?]; [| lia | lia].
    assert (2 ^ (d1 + s - 1) < 2 ^ d2) as Hlt by lia.
    apply Z.pow_lt_mono_r_iff in Hlt; lia.
  - intros Hpos.
    pose proof (Zdigits2_bounds q Hpos) as [Hloq Hhiq].
    set (dq := Zdigits2 q) in *.
    assert (1 <= dq) as Hdq.
    { destruct (Z.le_gt_cases 1 dq) as [? | Hd]; [done |].
      assert (2 ^ dq <= 2 ^ 0) by (apply Z.pow_le_mono_r; lia).
      change (2 ^ 0) with 1 in *. lia. }
    split.
    + destruct (Z.le_gt_cases (d1 + s - d2) 1) as [? | Hbig]; [lia |].
      assert (2 ^ (d1 + s - d2 - 1) <= q) as Hge.
      { apply Z.div_le_lower_bound; [lia |].
        assert (m2 * 2 ^ (d1 + s - d2 - 1)
                <= 2 ^ d2 * 2 ^ (d1 + s - d2 - 1))
          by (apply Z.mul_le_mono_nonneg_r; [apply Z.pow_nonneg |]; lia).
        rewrite <- Z.pow_add_r in * by lia.
        replace (d2 + (d1 + s - d2 - 1)) with (d1 + s - 1) in * by lia.
        lia. }
      assert (2 ^ (d1 + s - d2 - 1) < 2 ^ dq) as Hlt by lia.
      apply Z.pow_lt_mono_r_iff in Hlt; lia.
    + destruct (Z.le_gt_cases dq (d1 + s - d2 + 1)) as [? | Hbig]; [done |].
      assert (2 ^ (dq - 1) * 2 ^ (d2 - 1) <= m2 * q) as Hprod.
      { rewrite (Z.mul_comm m2 q).
        apply Z.mul_le_mono_nonneg; [apply Z.pow_nonneg | | apply Z.pow_nonneg
                                     |]; lia. }
      rewrite <- Z.pow_add_r in Hprod by lia.
      assert (2 ^ (dq - 1 + (d2 - 1)) < 2 ^ (d1 + s)) as Hlt by lia.
      apply Z.pow_lt_mono_r_iff in Hlt; lia.
Qed.

Lemma div_below (x : double) (sy : bool) (my : positive) (ey k : Z) :
  below k x ->
  -1074 <= k - (Z.pos (digits2_pos my) + ey) + 1 <= 1023 ->
  below (k - (Z.pos (digits2_pos my) + ey) + 2)
    (Double.div x (S754_finite sy my ey)).
Proof.
  intros Hx Hk. destruct x as [sx | sx | | sx mx ex]; try done.
  destruct Hx as [_ Hx]. unfold Double.div, SFdiv.
  destruct (SFdiv_core_binary_spec (Z.pos mx) ex (Z.pos my) ey) as [l ->].
  cbv zeta. cbn [Zdigits2].
  set (e' := Z.min (Z.max (Z.pos (digits2_pos mx) + ex
                           - (Z.pos (digits2_pos my) + ey) - 53) (-1074))
               (ex - ey)).
  destruct (div_arith (Z.pos mx) (Z.pos my) (ex - ey - e') ltac:(lia)
              ltac:(lia) ltac:(lia)) as (Hq & Hzero & Hpos).
  cbn [Zdigits2] in Hzero, Hpos.
  set (q := Z.pos mx * 2 ^ (ex - ey - e') / Z.pos my) in *.
  assert (Zdigits2 0 = 0) as Hd0 by done.
  assert (e' <= Z.max (Zdigits2 q + e' - 53) (-1074)
          /\ Z.max (Zdigits2 q + e') (-1074)
             <= k - (Z.pos (digits2_pos my) + ey) + 1) as [Hfexp Hmag].
  { destruct (Z.eq_dec q 0) as [Hq0 | Hq0].
    - specialize (Hzero Hq0). rewrite Hq0, Hd0. lia.
    - specialize (Hpos ltac:(lia)). lia. }
  pose proof (binary_round_aux_bound (xorb sx sy) q e' l Hq) as Hr.
  rewrite fexp_eq in Hr. specialize (Hr Hfexp ltac:(lia)).
  destruct (binary_round_aux _ _ (xorb sx sy) q e' l) as [| | | s m e];
    cbn [below]; [done .. |].
  destruct Hr as (_ & Hb & Hm). split; [done | lia].
Qed.

Lemma below_fits (c : double) : below 31 c -> fits_Q31_32 c.
Proof.
  destruct c as [s | s | | s m e]; cbn [below]; [| done | done |].
  - intros _. by repeat split.
  - intros [Hb Hd]. split; [done |]. split; [done |].
    pose proof (Zdigits2_bounds (Z.pos m) ltac:(lia)) as [_ Hhi].
    cbn [Zdigits2] in Hhi.
    assert (Z.pos m < 2 ^ (31 - e)) as Hm.
    { eapply Z.lt_le_trans; [exact Hhi |]. apply Z.pow_le_mono_r; lia. }
    assert (Habs : Z.abs (if s then Z.neg m else Z.pos m) = Z.pos m)
      by (by destruct s).
    destruct (Z.le_gt_cases 0 e) as [He | He].
    + rewrite to_Q_nonneg_exp by done.
      unfold Qlt, Qmult, Qabs, inject_Z. cbn [Qnum Qden].
      rewrite Z.abs_mul, Habs, (Z.abs_eq (2 ^ e))
        by (apply Z.pow_nonneg; lia).
      assert (2 ^ (31 - e) * 2 ^ e = 2 ^ 31) as Hp
        by (rewrite <- Z.pow_add_r by lia; f_equal; lia).
      assert (0 < 2 ^ e) by (apply Z.pow_pos_nonneg; lia).
      change (2 ^ 63) with (2 ^ 31 * 2 ^ 32). nia.
    + destruct e as [| q | p]; [lia | lia |].
      cbn [Double.to_Q]. unfold Qlt, Qmult, Qabs, inject_Z. cbn [Qnum Qden].
      rewrite Habs, Pos.mul_1_r, Pos2Z.inj_pow.
      replace (31 - Z.neg p) with (31 + Z.pos p) in Hm by lia.
      rewrite Z.pow_add_r in Hm by lia.
      change (2 ^ 63) with (2 ^ 31 * 2 ^ 32).
      assert (0 < 2 ^ Z.pos p) by (apply Z.pow_pos_nonneg; lia).
      nia.
Qed.

Lemma range_below (v : double) (k : Z) :
  0 <= k ->
  Double.valid v = true ->
  Double.is_finite v = true ->
  (Qabs (Double.to_Q v) < inject_Z (2 ^ k))%Q ->
  below k v.
Proof.
  intros Hk Hvalid Hfin Hv.
  destruct v as [s | s | | s m e]; cbn [below]; [done | done | done |].
  split; [exact Hvalid |].
  pose proof (Zdigits2_bounds (Z.pos m) ltac:(lia)) as [Hlo _].
  cbn [Zdigits2] in Hlo.
  assert (Habs : Z.abs (if s then Z.neg m else Z.pos m) = Z.pos m)
    by (by destruct s).
  assert (2 ^ (Z.pos (digits2_pos m) - 1) < 2 ^ (k - e)) as Hlt.
  { destruct (Z.le_gt_cases 0 e) as [He | He].
    - rewrite to_Q_nonneg_exp in Hv by done.
      unfold Qlt, Qabs, inject_Z in Hv. cbn [Qnum Qden] in Hv.
      rewrite Z.abs_mul, Habs, (Z.abs_eq (2 ^ e)), !Z.mul_1_r in Hv
        by (apply Z.pow_nonneg; lia).
      assert (0 < 2 ^ e) by (apply Z.pow_pos_nonneg; lia).
      destruct (Z.le_gt_cases e k) as [Hek | Hek].
      + replace k with (k - e + e) in Hv at 1 by lia.
        rewrite Z.pow_add_r in Hv by lia. nia.
      + assert (2 ^ k <= 2 ^ e) by (apply Z.pow_le_mono_r; lia). nia.
    - destruct e as [| q | p]; [lia | lia |].
      cbn [Double.to_Q] in Hv. unfold Qlt, Qabs, inject_Z in Hv.
      cbn [Qnum Qden] in Hv.
      rewrite Habs, Z.mul_1_r, Pos2Z.inj_pow in Hv.
      replace (k - Z.neg p) with (k + Z.pos p) by lia.
      rewrite Z.pow_add_r by lia. lia. }
  apply Z.pow_lt_mono_r_iff in Hlt; [lia | lia |].
  destruct (Z.le_gt_cases 0 (k - e)) as [? | Hneg]; [done |].
  rewrite (Z.pow_neg_r 2 (k - e)) in Hlt by lia.
  assert (0 <= 2 ^ (Z.pos (digits2_pos m) - 1)) by (apply Z.pow_nonneg; lia).
  lia.
Qed.

Lemma saturation_ctm_below (v : double) :
  below 27 v ->
  below 29 (Double.div (Double.sub Double.one v) Double.three)
  /\ below 31
       (Double.add (Double.div (Double.sub Double.one v) Double.three) v).
Proof.
  intros Hv.
  assert (below 27 Double.one) as Hone by (split; [done | by vm_compute]).
  pose proof (sub_below Double.one v 27 Hone Hv ltac:(lia) ltac:(lia))
    as Hsub.
  pose proof (div_below (Double.sub Double.one v) false 6755399441055744
                (-51) 29 Hsub) as Hdiv.
  change (Z.pos (digits2_pos 6755399441055744)) with 53 in Hdiv.
  specialize (Hdiv ltac:(lia)).
  change (S754_finite false 6755399441055744 (-51)) with Double.three
    in Hdiv.
  split; [exact Hdiv |].
  apply (add_below _ v 29 Hdiv); [| lia | lia].
  by apply (below_le 27).
Qed.

Lemma saturation_ctm_fits (v : double) :
  Double.valid v = true ->
  Double.is_finite v = true ->
  (Qabs (Double.to_Q v) < inject_Z (2 ^ 27))%Q ->
  Forall fits_Q31_32 (saturation_ctm v).
Proof.
  intros Hvalid Hfin Hv.
  destruct (saturation_ctm_below v (range_below v 27 ltac:(lia) Hvalid Hfin Hv))
    as [Hs Hd].
  assert (fits_Q31_32 (Double.div (Double.sub Double.one v) Double.three))
    as Hfs by (apply below_fits; by apply (below_le 29)).
  assert (fits_Q31_32
            (Double.add (Double.div (Double.sub Double.one v) Double.three)
               v)) as Hfd by (by apply below_fits).
  unfold saturation_ctm. cbv zeta.
  repeat (apply Forall_cons; [assumption |]). apply Forall_nil.
Qed.

Lemma identity_ctm_fits : Forall fits_Q31_32 identity_ctm.
Proof.
  assert (below 31 Double.one) by (split; [done | by vm_compute]).
  assert (below 31 Double.zero) by done.
  unfold identity_ctm.
  repeat (apply Forall_cons; [by apply below_fits |]). apply Forall_nil.
Qed.

(** The matrix of an accepted request is in the range of the format. *)
Lemma parse_user_ctm_fits (strtod : string -> double) (opt : string)
    (coeffs : list double) :
  length coeffs = 9%nat ->
  (strcmp opt "default" <> 0 ->
   Double.valid (strtod opt) = true
   /\ Double.is_finite (strtod opt) = true
   /\ (Qabs (Double.to_Q (strtod opt)) < inject_Z (2 ^ 27))%Q) ->
  fst (parse_user_ctm strtod (Some opt) coeffs) <> 0 ->
  length (snd (parse_user_ctm strtod (Some opt) coeffs)) = 9%nat
  /\ Forall fits_Q31_32 (snd (parse_user_ctm strtod (Some opt) coeffs)).
Proof.
  intros Hlen Hrange. unfold parse_user_ctm.
  destruct (Z.eqb_spec (strcmp opt "default") 0) as [Hdef | Hdef];
    cbn [fst snd].
  - intros _. rewrite memcpy_all by done. split; [done |].
    apply identity_ctm_fits.
  - destruct (Double.eqb (strtod opt) Double.zero); cbn [fst snd]; [done |].
    intros _. rewrite memcpy_all by done. split; [done |].
    destruct (Hrange Hdef) as (Hvalid & Hfin & Hv).
    by apply saturation_ctm_fits.
Qed.

(** X22: for every binary64 number [v] of absolute value below 2^27, the
    entries [(1 - v) / 3] and [(1 - v) / 3 + v] of the matrix that
    [parse_user_ctm] computes in double arithmetic are binary64 numbers of
    absolute value below 2^31: the matrix is in the range of the format,
    whatever the roundings. *)
Theorem saturation_ctm_in_range (v : double) :
  Double.valid v = true ->
  Double.is_finite v = true ->
  (Qabs (Double.to_Q v) < inject_Z (2 ^ 27))%Q ->
  Forall fits_Q31_32 (saturation_ctm v)
  /\ forallb magnitude_fits (saturation_ctm v) = true.
Proof.
  intros Hvalid Hfin Hv.
  pose proof (saturation_ctm_fits v Hvalid Hfin Hv) as Hfits.
  split; [done |]. apply forallb_forall. intros c Hc.
  rewrite Forall_forall in Hfits. specialize (Hfits c Hc).
  apply magnitude_fits_iff; [| done]. by destruct Hfits.
Qed.

Lemma saturation_ctm_in_range_witness :
  Forall fits_Q31_32
    (saturation_ctm (S754_finite true 5629499534213120 (-51)))
  /\ forallb magnitude_fits
       (saturation_ctm (S754_finite true 5629499534213120 (-51))) = true.
Proof.
  apply (saturation_ctm_in_range (S754_finite true 5629499534213120 (-51)));
    reflexivity.
Defined.

(** X23: on a request that [parse_user_ctm] accepts, [default] or a value
    of absolute value below 2^27, every conversion of [coeffs_to_ctm] is
    defined: the encoder has a result, of nine entries. What is undefined
    in [set_ctm] on such a request is the read of its loop alone. *)
Theorem coeffs_to_ctm_accepted (strtod : string -> double) (opt : string)
    (ctm_coeffs : list double) (ctm : _drm_color_ctm) :
  length ctm_coeffs = 9%nat ->
  length (matrix ctm) = 9%nat ->
  (strcmp opt "default" <> 0 ->
   Double.valid (strtod opt) = true
   /\ Double.is_finite (strtod opt) = true
   /\ (Qabs (Double.to_Q (strtod opt)) < inject_Z (2 ^ 27))%Q) ->
  fst (parse_user_ctm strtod (Some opt) ctm_coeffs) <> 0 ->
  exists ctm',
    coeffs_to_ctm (snd (parse_user_ctm strtod (Some opt) ctm_coeffs)) ctm
    = Some ctm'
    /\ length (matrix ctm') = 9%nat
    /\ forall (i : nat) (c : double),
         snd (parse_user_ctm strtod (Some opt) ctm_coeffs) !! i = Some c ->
         fits_Q31_32 c /\ matrix ctm' !! i = coeff_to_ctm c.
Proof.
  intros Hlen Hlen' Hrange Haccepted.
  destruct (parse_user_ctm_fits strtod opt ctm_coeffs Hlen Hrange Haccepted)
    as [Hl Hfits].
  by apply coeffs_to_ctm_fits.
Qed.

Lemma coeffs_to_ctm_accepted_witness :
  exists ctm',
    coeffs_to_ctm
      (snd (parse_user_ctm
              (fun _ => S754_finite true 5629499534213120 (-51))
              (Some "-2.5"%string) (repeat Double.zero 9)))
      {| matrix := repeat 0 9 |}
    = Some ctm'
    /\ length (matrix ctm') = 9%nat
    /\ forall (i : nat) (c : double),
         snd (parse_user_ctm
                (fun _ => S754_finite true 5629499534213120 (-51))
                (Some "-2.5"%string) (repeat Double.zero 9)) !! i = Some c ->
         fits_Q31_32 c /\ matrix ctm' !! i = coeff_to_ctm c.
Proof.
  apply (coeffs_to_ctm_accepted
           (fun _ => S754_finite true 5629499534213120 (-51)) "-2.5"
           (repeat Double.zero 9) {| matrix := repeat 0 9 |}).
  - reflexivity.
  - reflexivity.
  - intros _. repeat split.
  - vm_compute. discriminate.
Defined.

(** ** [main]: the run that finds the output *)

Lemma find_first_named (names : RROutput -> string) (name : string)
    (pre post : list RROutput) (o : RROutput) :
  names o = name ->
  (forall o', o' ∈ pre -> names o' <> name) ->
  List.find (fun o => String.eqb name (names o)) (pre ++ o :: post) = Some o.
Proof.
  intros Ho Hpre. induction pre as [| p pre IH]; simpl.
  - by rewrite (proj2 (String.eqb_eq _ _)).
  - rewrite (proj2 (String.eqb_neq _ _)).
    + apply IH. intros o' Hin. apply Hpre. by right.
    + intros Heq. apply (Hpre p); [by left | done].
Qed.

(** X24: the run that the program is for has undefined behaviour. On a
    command line with an output name and an accepted request, on a display
    that opens, has screen resources and names its outputs, one of them
    with the requested name (the first such is [output]), [main] goes into
    [set_ctm] and its behaviour is undefined there; before that it has
    opened the display, got the resources and asked for and released the
    information of outputs, nothing else: no call of it has changed a
    property. *)
Theorem main_found_undefined (env : menv) (pf : platform)
    (HELP_STR : list ascii) (malloc : nat -> option (list ascii))
    (strtod : string -> double) (opts : list getopt_result)
    (ctm_coeffs : list double) (ctm : _drm_color_ctm) (padded_ctm : list Z)
    (output_name : string) (names : RROutput -> string)
    (dpy : Display) (res : XRRScreenResources)
    (pre post : list RROutput) (output : RROutput)
    (s s1 s2 : mstate env) :
  forallb is_setting opts = true ->
  last_optarg "o" opts None = Some output_name ->
  fst (parse_user_ctm strtod (last_optarg "c" opts None) ctm_coeffs) <> 0 ->
  manswer env (XOpenDisplay None) s = XReply (Some dpy) s1 ->
  manswer env XRRGetScreenResourcesCurrent s1 = XReply (Some res) s2 ->
  (forall o s0, o ∈ outputs res ->
     exists oi,
       manswer env (OnDisplay (XRRGetOutputInfo res o)) s0
       = XReply (Some oi) s0
       /\ info_name oi = names o) ->
  (forall oi s0,
     manswer env (OnDisplay (XRRFreeOutputInfo oi)) s0 = XReply tt s0) ->
  outputs res = pre ++ output :: post ->
  names output = output_name ->
  (forall o', o' ∈ pre -> names o' <> output_name) ->
  output <> 0 ->
  exists visited : list (RROutput * XRROutputInfo),
    mrun env (main pf HELP_STR malloc strtod opts ctm_coeffs ctm padded_ctm)
      s
    = (Undefined,
       [XOpenDisplay None; XRRGetScreenResourcesCurrent]
       ++ map OnDisplay
            (flat_map (fun v => [XRRGetOutputInfo res (fst v);
                                 XRRFreeOutputInfo (snd v)]) visited))
    /\ map fst visited `prefix_of` outputs res.
Proof.
  intros Hall Hname Haccepted Hopen Hres Hinfo Hfree Houts Hnamed Hpre Hne.
  rewrite main_settings, Hname by done.
  destruct (Z.eqb_spec (fst (parse_user_ctm strtod
                               (last_optarg "c" opts None) ctm_coeffs)) 0)
    as [? | _]; [done |].
  unfold main_display.
  rewrite (mrun_step env (XOpenDisplay None)), Hopen.
  rewrite (mrun_step env XRRGetScreenResourcesCurrent), Hres.
  rewrite mrun_then, mrun_on_display.
  assert (fst (@run Z (display_of env)
                 (find_output_loop res (outputs res) output_name) s2)
          = Returned output s2) as Hfind.
  { etransitivity;
      [apply (find_output_loop_run (display_of env) names res output_name
                (outputs res) Hinfo Hfree s2) |].
    by rewrite Houts, find_first_named. }
  unfold find_output_by_name.
  destruct (@run Z (display_of env)
              (find_output_loop res (outputs res) output_name) s2)
    as [o trf] eqn:Hrun. cbn [fst snd] in Hfind |- *. subst o.
  apply find_output_loop_calls in Hrun as (visited & -> & Hprefix & _).
  rewrite mrun_then. rewrite (proj2 (Z.eqb_neq output 0) Hne).
  rewrite mrun_on_display.
  assert (set_ctm pf output
            (snd (parse_user_ctm strtod (last_optarg "c" opts None)
                    ctm_coeffs)) ctm padded_ctm = Undef) as ->.
  { unfold set_ctm. destruct (coeffs_to_ctm _ ctm) as [ctm' |]; [| done].
    by rewrite pack_undefined. }
  cbn [run fst snd map]. rewrite app_nil_r.
  exists visited. split; [reflexivity | done].
Qed.

Lemma main_found_undefined_witness :
  exists visited : list (RROutput * XRROutputInfo),
    mrun sample_env
      (main sample_platform sample_help sample_malloc
         (fun _ => S754_finite true 5629499534213120 (-51))
         [("o"%char, Some "DisplayPort-0"%string);
          ("c"%char, Some "-2.5"%string)]
         (repeat Double.zero 9) {| matrix := repeat 0 9 |} (repeat 0 18))
      sample_start
    = (Undefined,
       [XOpenDisplay None; XRRGetScreenResourcesCurrent]
       ++ map OnDisplay
            (flat_map (fun v => [XRRGetOutputInfo sample_resources (fst v);
                                 XRRFreeOutputInfo (snd v)]) visited))
    /\ map fst visited `prefix_of` outputs sample_resources.
Proof.
  apply (main_found_undefined sample_env sample_platform sample_help
           sample_malloc (fun _ => S754_finite true 5629499534213120 (-51))
           [("o"%char, Some "DisplayPort-0"%string);
            ("c"%char, Some "-2.5"%string)]
           (repeat Double.zero 9) {| matrix := repeat 0 9 |} (repeat 0 18)
           "DisplayPort-0" sample_name tt sample_resources [61] [] 62
           sample_start sample_start sample_start).
  - reflexivity.
  - reflexivity.
  - vm_compute. discriminate.
  - reflexivity.
  - reflexivity.
  - intros o s0 Hin. simpl in Hin.
    apply elem_of_cons in Hin as [-> | Hin]; [by eexists |].
    apply elem_of_cons in Hin as [-> | Hin]; [by eexists |].
    by apply elem_of_nil in Hin.
  - reflexivity.
  - reflexivity.
  - reflexivity.
  - intros o' Hin. apply list_elem_of_singleton in Hin as ->. done.
  - discriminate.
Defined.
